(** * API documentation extractor: the crawl, its URL classifier and its
      spec locator

    A shallow embedding of [extract_api.py].  The pure helpers
    ([clean_url], [is_api_related_link]) are Rocq functions on strings; the
    crawl driver [extract_site_content] threads an explicit state (the
    scraping service, the shared [visited_urls] set and a trace of what the
    run did) through every call, and an exception is a result [Raise msg].

    Strings.  A Python [str] is modelled by [string]; every [ascii] is
    read as a code point below 256.  On that range [str.lower] is the map
    [lower] below, and [re.IGNORECASE] relates an ASCII letter to its two
    cases only.

    Library code.  [urlparse] and [urljoin] follow CPython 3.11's
    [urllib.parse], and [os.path.join] its [posixpath]; the regular
    expressions of the script are modelled by hand-written matchers that
    are documented where they are defined.

    Left out.  [print] and [time.sleep] have no part in what the functions
    return and are not modelled, and neither of them, nor the construction
    of the client, is taken to raise; the recursion limit of the interpreter
    is taken not to be reached.  Of [main], the parsing of the arguments
    and the writing of the output file are left out; the time stamp of
    [generate_output_filename] is an argument, and its [os.makedirs] is
    taken not to raise. *)

From Stdlib Require Import ZArith NArith Ascii String List Bool Lia.
From stdpp Require Import base option list sets gmap strings.

Local Open Scope Z_scope.

(** ** Python string primitives *)

Module Py.

Definition code (c : ascii) : N := N_of_ascii c.

Definition between (lo hi : N) (c : ascii) : bool :=
  ((lo <=? code c) && (code c <=? hi))%N.

(** [c.isascii() and c.isalpha()] *)
Definition is_ascii_alpha (c : ascii) : bool :=
  between 65 90 c || between 97 122 c.

Definition is_digit (c : ascii) : bool := between 48 57 c.

(** [str.lower] on one code point below 256: the ASCII capitals and the
    Latin-1 capitals (all of U+00C0..U+00DE but the multiplication sign)
    move up by 32. *)
Definition lower_char (c : ascii) : ascii :=
  if between 65 90 c || (between 192 222 c && negb (code c =? 215)%N)
  then ascii_of_N (code c + 32)
  else c.

Fixpoint lower (s : string) : string :=
  match s with
  | "" => ""
  | String c s' => String (lower_char c) (lower s')
  end.

Definition len (s : string) : Z := Z.of_nat (String.length s).

(** [s.startswith(p)] *)
Fixpoint startswith (p s : string) : bool :=
  match p, s with
  | "", _ => true
  | String a p', String b s' => Ascii.eqb a b && startswith p' s'
  | String _ _, "" => false
  end.

(** [sub in s] *)
Fixpoint contains (sub s : string) : bool :=
  startswith sub s ||
  match s with
  | "" => false
  | String _ s' => contains sub s'
  end.

(** [s.endswith(suf)] *)
Fixpoint endswith (suf s : string) : bool :=
  String.eqb suf s ||
  match s with
  | "" => false
  | String _ s' => endswith suf s'
  end.

(** [c in s] for a single character [c] *)
Fixpoint has_char (c : ascii) (s : string) : bool :=
  match s with
  | "" => false
  | String a s' => Ascii.eqb a c || has_char c s'
  end.

(** The longest prefix of [s] none of whose characters satisfies [P],
    and what follows it. *)
Fixpoint break_at (P : ascii → bool) (s : string) : string * string :=
  match s with
  | "" => ("", "")
  | String c s' =>
      if P c then ("", s)
      else let '(a, b) := break_at P s' in (String c a, b)
  end.

(** [s.partition(c)], with the middle component as a boolean. *)
Definition partition (c : ascii) (s : string) : string * bool * string :=
  match break_at (Ascii.eqb c) s with
  | (a, String _ b) => (a, true, b)
  | (a, "") => (a, false, "")
  end.

(** [s.rpartition(c)] when [c] occurs in [s]: what precedes and what
    follows its last occurrence. *)
Fixpoint rpartition (c : ascii) (s : string) : option (string * string) :=
  match s with
  | "" => None
  | String a s' =>
      match rpartition c s' with
      | Some (h, t) => Some (String a h, t)
      | None => if Ascii.eqb a c then Some ("", s') else None
      end
  end.

(** [s.lstrip(chars)], [s.rstrip(chars)] and [s.strip(chars)] for a
    character class [P]. *)
Fixpoint lstrip (P : ascii → bool) (s : string) : string :=
  match s with
  | "" => ""
  | String c s' => if P c then lstrip P s' else s
  end.

Fixpoint rstrip (P : ascii → bool) (s : string) : string :=
  match s with
  | "" => ""
  | String c s' =>
      match rstrip P s' with
      | "" => if P c then "" else String c ""
      | r => String c r
      end
  end.

Definition strip (P : ascii → bool) (s : string) : string :=
  rstrip P (lstrip P s).

(** Deleting every character of a class: the chain of
    [s.replace(b, "")] over single characters [b]. *)
Fixpoint remove_chars (P : ascii → bool) (s : string) : string :=
  match s with
  | "" => ""
  | String c s' => if P c then remove_chars P s' else String c (remove_chars P s')
  end.

(** [s.split(c)]: never empty. *)
Fixpoint split (c : ascii) (s : string) : list string :=
  match s with
  | "" => [""]
  | String a s' =>
      if Ascii.eqb a c then "" :: split c s'
      else match split c s' with
           | w :: ws => String a w :: ws
           | [] => [String a ""]
           end
  end.

(** [sep.join(l)] *)
Fixpoint join (sep : string) (l : list string) : string :=
  match l with
  | [] => ""
  | [w] => w
  | w :: ws => w +:+ sep +:+ join sep ws
  end.

(** [s[:-1]] *)
Fixpoint drop_last (s : string) : string :=
  match s with
  | "" => ""
  | String _ "" => ""
  | String c s' => String c (drop_last s')
  end.

(** Truthiness of an optional string attribute: [None] and [""] are
    falsy. *)
Definition truthy (o : option string) : bool :=
  match o with
  | Some (String _ _) => true
  | _ => false
  end.

End Py.

(** ** Results of fallible computations

    [Raise msg] is a raised exception whose [str] is [msg]. *)

Inductive res (A : Type) : Type :=
  | Ok (a : A)
  | Raise (msg : string).
Arguments Ok {A} a.
Arguments Raise {A} msg.

Global Instance res_ret : MRet res := λ A a, Ok a.
Global Instance res_bind : MBind res := λ A B f m,
  match m with
  | Ok a => f a
  | Raise msg => Raise msg
  end.

(** ** [urllib.parse] (CPython 3.11)

    [urlsplit] validates a bracketed host with the [ipaddress] module;
    that check is the parameter [check_bracketed_host], which answers
    [None] when the host is accepted and [Some msg] when
    [ValueError(msg)] is raised.  [_checknetloc] only objects to
    characters whose NFKC form contains one of [/?#@:]; no code point below
    256 has such a form, so it never raises here. *)

Module Urllib.
Section urllib.
Import Py.

Variable check_bracketed_host : string → option string.

Record ParseResult := mkParse {
  scheme : string;
  netloc : string;
  path : string;
  params : string;
  query : string;
  fragment : string
}.

Definition uses_relative : list string :=
  [""; "ftp"; "http"; "gopher"; "nntp"; "imap"; "wais"; "file"; "https";
   "shttp"; "mms"; "prospero"; "rtsp"; "rtspu"; "sftp"; "svn"; "svn+ssh";
   "ws"; "wss"].

Definition uses_netloc : list string :=
  [""; "ftp"; "http"; "gopher"; "nntp"; "telnet"; "imap"; "wais"; "file";
   "mms"; "https"; "shttp"; "snews"; "prospero"; "rtsp"; "rtspu"; "rsync";
   "svn"; "svn+ssh"; "sftp"; "nfs"; "git"; "git+ssh"; "ws"; "wss"].

Definition uses_params : list string :=
  [""; "ftp"; "hdl"; "prospero"; "http"; "imap"; "https"; "shttp"; "rtsp";
   "rtspu"; "sip"; "sips"; "mms"; "sftp"; "tel"].

Definition mem (s : string) (l : list string) : bool :=
  existsb (String.eqb s) l.

Definition nonempty (s : string) : bool :=
  match s with "" => false | _ => true end.

Fixpoint all_chars (P : ascii → bool) (s : string) : bool :=
  match s with
  | "" => true
  | String c s' => P c && all_chars P s'
  end.

(** [c in scheme_chars] *)
Definition scheme_char (c : ascii) : bool :=
  is_ascii_alpha c || is_digit c || has_char c "+-.".

(** [_WHATWG_C0_CONTROL_OR_SPACE] and [_UNSAFE_URL_BYTES_TO_REMOVE] *)
Definition c0_or_space (c : ascii) : bool := (code c <=? 32)%N.
Definition unsafe (c : ascii) : bool :=
  (code c =? 9)%N || (code c =? 13)%N || (code c =? 10)%N.

(** The scheme test of [urlsplit]: [i = url.find(':')], [i > 0], a
    letter first and scheme characters up to [i]. *)
Definition split_scheme (dflt url : string) : string * string :=
  match partition ":" url with
  | (String c0 _ as pre, true, rest) =>
      if is_ascii_alpha c0 && all_chars scheme_char pre
      then (lower pre, rest)
      else (dflt, url)
  | _ => (dflt, url)
  end.

Definition netloc_delim (c : ascii) : bool := has_char c "/?#".

(** [_splitnetloc(url, 2)] behind the test [url[:2] == '//'] *)
Definition split_netloc (url : string) : string * string :=
  match url with
  | String "/" (String "/" r) => break_at netloc_delim r
  | _ => ("", url)
  end.

Definition check_bracketed_netloc (nl : string) : option string :=
  let hostname_and_port :=
    match rpartition "@" nl with Some (_, t) => t | None => nl end in
  match partition "[" hostname_and_port with
  | (before_bracket, true, bracketed) =>
      if nonempty before_bracket then Some "Invalid IPv6 URL"
      else
        let '(hostname, _, port) := partition "]" bracketed in
        if nonempty port && negb (startswith ":" port)
        then Some "Invalid IPv6 URL"
        else check_bracketed_host hostname
  | (_, false, _) =>
      let '(hostname, _, _) := partition ":" hostname_and_port in
      check_bracketed_host hostname
  end.

(** The two bracket tests of [urlsplit] on the network location. *)
Definition check_brackets (nl : string) : option string :=
  let o := has_char "[" nl in
  let c := has_char "]" nl in
  if (o && negb c) || (c && negb o) then Some "Invalid IPv6 URL"
  else if o && c then check_bracketed_netloc nl
  else None.

(** [url.split(c, 1)] behind the test [c in url] *)
Definition split_once (c : ascii) (url : string) : string * string :=
  match partition c url with
  | (a, true, b) => (a, b)
  | (_, false, _) => (url, "")
  end.

(** [urlsplit(url, scheme)], as (scheme, netloc, path, query, fragment) *)
Definition urlsplit (url dflt : string)
  : res (string * string * string * string * string) :=
  let url := lstrip c0_or_space url in
  let dflt := strip c0_or_space dflt in
  let url := remove_chars unsafe url in
  let dflt := remove_chars unsafe dflt in
  let '(sch, url) := split_scheme dflt url in
  let '(nl, url) := split_netloc url in
  match check_brackets nl with
  | Some msg => Raise msg
  | None =>
      let '(url, frag) := split_once "#" url in
      let '(url, qry) := split_once "?" url in
      Ok (sch, nl, url, qry, frag)
  end.

Definition splitparams (url : string) : string * string :=
  match rpartition "/" url with
  | Some (h, t) =>
      match partition ";" t with
      | (a, true, b) => (h +:+ "/" +:+ a, b)
      | (_, false, _) => (url, "")
      end
  | None => split_once ";" url
  end.

Definition urlparse_with (url dflt : string) : res ParseResult :=
  '(sch, nl, url, qry, frag) ← urlsplit url dflt;
  let '(url, prm) :=
    if mem sch uses_params && has_char ";" url then splitparams url
    else (url, "") in
  Ok (mkParse sch nl url prm qry frag).

(** [urlparse(url)] *)
Definition urlparse (url : string) : res ParseResult := urlparse_with url "".

Definition urlunsplit (sch nl url qry frag : string) : string :=
  let url :=
    if nonempty nl
       || (nonempty sch && mem sch uses_netloc && negb (startswith "//" url))
    then "//" +:+ nl +:+
         (if nonempty url && negb (startswith "/" url) then "/" +:+ url else url)
    else url in
  let url := if nonempty sch then sch +:+ ":" +:+ url else url in
  let url := if nonempty qry then url +:+ "?" +:+ qry else url in
  if nonempty frag then url +:+ "#" +:+ frag else url.

Definition urlunparse (p : ParseResult) : string :=
  let url := if nonempty (params p) then path p +:+ ";" +:+ params p else path p in
  urlunsplit (scheme p) (netloc p) url (query p) (fragment p).

(** [segments[1:-1] = filter(None, segments[1:-1])] *)
Definition filter_middle (segs : list string) : list string :=
  match segs with
  | a :: (_ :: _) as rest =>
      a :: List.filter nonempty (removelast rest) ++ [List.last rest ""]
  | _ => segs
  end.

(** The loop of [urljoin] that removes dot segments. *)
Fixpoint resolve (segs resolved_path : list string) : list string :=
  match segs with
  | [] => resolved_path
  | seg :: segs' =>
      if String.eqb seg ".." then resolve segs' (removelast resolved_path)
      else if String.eqb seg "." then resolve segs' resolved_path
      else resolve segs' (resolved_path ++ [seg])
  end.

(** [urljoin(base, url)] *)
Definition urljoin (base url : string) : res string :=
  if negb (nonempty base) then Ok url
  else if negb (nonempty url) then Ok base
  else
    b ← urlparse_with base "";
    u ← urlparse_with url (scheme b);
    if negb (String.eqb (scheme u) (scheme b)) || negb (mem (scheme u) uses_relative)
    then Ok url
    else if mem (scheme u) uses_netloc && nonempty (netloc u)
    then Ok (urlunparse u)
    else
      let nl := if mem (scheme u) uses_netloc then netloc b else netloc u in
      if negb (nonempty (path u)) && negb (nonempty (params u))
      then
        Ok (urlunparse (mkParse (scheme u) nl (path b) (params b)
                          (if nonempty (query u) then query u else query b)
                          (fragment u)))
      else
        let base_parts := split "/" (path b) in
        let base_parts :=
          if nonempty (List.last base_parts "") then removelast base_parts
          else base_parts in
        let segments :=
          if startswith "/" (path u) then split "/" (path u)
          else filter_middle (base_parts ++ split "/" (path u)) in
        let resolved_path := resolve segments [] in
        let resolved_path :=
          if mem (List.last segments "") ["."; ".."] then resolved_path ++ [""]
          else resolved_path in
        let joined := join "/" resolved_path in
        Ok (urlunparse (mkParse (scheme u) nl
                          (if nonempty joined then joined else "/")
                          (params u) (query u) (fragment u))).

End urllib.
End Urllib.

(** ** [os.path.join] (CPython 3.11, [posixpath]) *)

Module Posixpath.
Import Py.

(** The body of the loop of [join]: an absolute component replaces the
    path, and a separator is put in unless the path is empty or ends in
    one. *)
Definition join_step (path b : string) : string :=
  if startswith "/" b then b
  else if String.eqb path "" || endswith "/" path then path +:+ b
  else path +:+ "/" +:+ b.

(** [join(a, *p)] *)
Definition join (a : string) (p : list string) : string :=
  fold_left join_step p a.

End Posixpath.

(** ** The scraping service

    [FirecrawlApp.scrape_url] is the external collaborator: it takes the
    target and the keyword options, and either raises or returns a
    response object, which may be falsy ([None] below).  Its attributes
    are optional. *)

Module Firecrawl.

Inductive Format := Markdown | Links | Html | Screenshot.

Record Request := mkRequest {
  url : string;
  formats : list Format;
  timeout : option Z;
  wait_for : option Z
}.

Record Response := mkResponse {
  markdown : option string;
  html : option string;
  links : option (list string);
  screenshot : option string
}.

End Firecrawl.

(** ** Regular expressions of the script *)

Module Regex.
Import Py.

Definition dquote : ascii := "034"%char.
Definition is_quote (c : ascii) : bool :=
  Ascii.eqb c dquote || Ascii.eqb c "'"%char.

(** A match of [\[([^\]]+)\]\(([^)]+)\)] at the head of [s]: group 2
    and the length of the match.  Each group is a run of characters that
    excludes its own closing delimiter and must be followed by it, so the
    run is the longest one and the match is unique. *)
Definition md_link_at (s : string) : option (string * nat) :=
  match s with
  | String "[" s1 =>
      match break_at (Ascii.eqb "]") s1 with
      | (String _ _ as text, String _ (String "(" s2)) =>
          match break_at (Ascii.eqb ")") s2 with
          | (String _ _ as target, String _ _) =>
              Some (target, (String.length text + String.length target + 4)%nat)
          | _ => None
          end
      | _ => None
      end
  | _ => None
  end.

(** [re.sub(pattern, r'\2', s)]: the matches are taken leftmost first
    and do not overlap; [skip] counts the characters of the current
    match still to be passed over. *)
Fixpoint md_sub_from (skip : nat) (s : string) : string :=
  match s with
  | "" => ""
  | String c s' =>
      match skip with
      | S k => md_sub_from k s'
      | O =>
          match md_link_at s with
          | Some (target, n) => target +:+ md_sub_from (Nat.pred n) s'
          | None => String c (md_sub_from O s')
          end
      end
  end.

Definition md_sub (s : string) : string := md_sub_from O s.

Definition spec_extensions : list string := [".json"; ".yaml"; ".yml"].

Fixpoint drop_end (n : nat) (s : string) : string :=
  match n with
  | O => s
  | S k => drop_end k (drop_last s)
  end.

(** The group [([^"']*kw[^"']*\.(?:json|yaml|yml))] against a whole run
    [cap] of characters other than quotes, ignoring case. *)
Definition capture_ok (kw cap : string) : bool :=
  existsb (fun ext =>
             endswith ext (lower cap)
             && contains kw (lower (drop_end (String.length ext) cap)))
          spec_extensions.

(** A match of [href=["']([^"']*kw[^"']*\.(?:json|yaml|yml))["']] at
    the head of [s], ignoring case: the group and the length of the
    match.  The group holds no quote and is followed by one, so it is
    the whole run up to the next quote. *)
Definition href_at (kw s : string) : option (string * nat) :=
  match s with
  | String h (String r (String e (String f (String g (String q s1))))) =>
      if String.eqb (lower (String h (String r (String e (String f (String g ""))))))
           "href="
         && is_quote q
      then
        match break_at is_quote s1 with
        | (cap, String _ _) =>
            if capture_ok kw cap then Some (cap, (String.length cap + 7)%nat)
            else None
        | _ => None
        end
      else None
  | _ => None
  end.

(** [re.findall(pattern, s, re.IGNORECASE)] for the pattern of keyword
    [kw]: the groups of the successive matches. *)
Fixpoint findall_from (kw : string) (skip : nat) (s : string) : list string :=
  match s with
  | "" => []
  | String _ s' =>
      match skip with
      | S k => findall_from kw k s'
      | O =>
          match href_at kw s with
          | Some (cap, n) => cap :: findall_from kw (Nat.pred n) s'
          | None => findall_from kw O s'
          end
      end
  end.

Definition findall (kw s : string) : list string := findall_from kw O s.

End Regex.

(** ** The script *)

(** Results.  A [PageResult] is the dictionary built by
    [extract_site_content]; the key [openapi_specs] is optional.  The empty
    dictionary that the function returns when it gives up is [None] in
    [option PageResult]. *)

Record Content := mkContent {
  content_markdown : option string;
  content_html : option string;
  content_screenshot : option string
}.

Record SpecCandidate := mkSpec {
  spec_url : string;
  spec_markdown : option string;
  spec_html : option string
}.

#[warnings="-register-all"]
Inductive PageResult := mkPage {
  page_url : string;
  page_content : Content;
  page_links : list string;
  page_child_pages : list PageResult;
  page_openapi_specs : option (list SpecCandidate)
}.

(** The four places where the script calls [scrape_url]. *)
Inductive Site := MainFetch | SpecFetch | ProbeFetch | RetryFetch.

(** What a run leaves behind, in order: [Visit url depth] when a node
    passes the guard and is marked visited (the script prints its
    "Initializing extraction" line there), [Fetch site request] for every
    call of [scrape_url]. *)
Inductive Event :=
  | Visit (url : string) (depth : Z)
  | Fetch (site : Site) (request : Firecrawl.Request).

Global Instance Site_eq_dec : EqDecision Site.
Proof. solve_decision. Defined.

(** ** A small site for the examples

    One response function stands for the service in the closed examples
    at the end: two pages that link to each other, a root page with five
    relevant links and an embedded spec link, two PDFs (one of which times
    out on its main request and answers the second attempt), and a spec
    document at a common path. *)

Module Example.

Definition dq : string := String "034"%char "".

(** The bracketed-host check that rejects every host, with the message of
    [ipaddress.ip_address]; no URL of the examples has a bracket. *)
Definition reject_bracketed_host (hostname : string) : option string :=
  Some ("'" +:+ hostname +:+ "' does not appear to be an IPv4 or IPv6 address").

Definition page (html : string) (links : list string) : Firecrawl.Response :=
  Firecrawl.mkResponse (Some "# page") (Some html) (Some links) (Some "shot.png").

Definition document (markdown : string) : Firecrawl.Response :=
  Firecrawl.mkResponse (Some markdown) None None None.

Definition url_A : string := "https://x.com/docs/a".
Definition url_B : string := "https://x.com/docs/b".
Definition url_root : string := "https://x.com/docs".
Definition url_slow_pdf : string := "https://x.com/guide.pdf".
Definition url_pdf : string := "https://x.com/api.pdf".

Definition root_html : string :=
  "<a href=" +:+ dq +:+ "/v2/openapi.json" +:+ dq +:+ ">spec</a>".

Definition answer (request : Firecrawl.Request) : res (option Firecrawl.Response) :=
  let url := Firecrawl.url request in
  if String.eqb url url_A then Ok (Some (page "<p>a</p>" [url_B]))
  else if String.eqb url url_B then Ok (Some (page "<p>b</p>" [url_A]))
  else if String.eqb url url_root then
    Ok (Some (page root_html
                ["/docs/1"; "/docs/2"; "/docs/3"; "/docs/4"; "/docs/5"; "/blog/api"]))
  else if String.eqb url url_slow_pdf then
    match Firecrawl.formats request with
    | [Firecrawl.Markdown] => Ok (Some (document "# guide"))
    | _ => Raise "Request Timeout"
    end
  else if String.eqb url url_pdf then Ok (Some (document "# api"))
  else if String.eqb url "https://x.com/v2/openapi.json" then
    Ok (Some (document "openapi: 3.0.0"))
  else if String.eqb url "https://x.com/openapi.json" then
    Ok (Some (document "openapi: 3.1.0"))
  else if String.eqb url "https://x.com/docs/1" then Ok (Some (page "" []))
  else Raise "404 Not Found".

(** The service has no state of its own here. *)
Definition scrape_url (request : Firecrawl.Request) (w : unit)
  : res (option Firecrawl.Response) * unit :=
  (answer request, w).

Definition api_key : option string := Some "fc-key".

(** An iteration order for [list(set(l))]: first occurrences, in order. *)
Fixpoint list_of_set (l : list string) : list string :=
  match l with
  | [] => []
  | x :: rest =>
      x :: List.filter (fun y => negb (String.eqb y x)) (list_of_set rest)
  end.

End Example.

(** The same site behind a service that also answers the request of the
    connection test. *)
Module Connected.

Definition answer (request : Firecrawl.Request) : res (option Firecrawl.Response) :=
  if String.eqb (Firecrawl.url request) "https://httpbin.org/json"
  then Ok (Some (Example.document "{}"))
  else Example.answer request.

Definition scrape_url (request : Firecrawl.Request) (w : unit)
  : res (option Firecrawl.Response) * unit :=
  (answer request, w).

End Connected.

Section extract_api.
Import Py Regex.

(** The bracketed-host check of [urllib.parse]. *)
Variable check_bracketed_host : string → option string.

Abbreviation urlparse := (Urllib.urlparse check_bracketed_host).
Abbreviation urljoin := (Urllib.urljoin check_bracketed_host).

Definition clean_url (url : string) : res string :=
  let url := md_sub url in
  parsed ← urlparse url;
  let clean_url :=
    Urllib.scheme parsed +:+ "://" +:+ Urllib.netloc parsed +:+ Urllib.path parsed in
  Ok (if endswith "/" clean_url && (len clean_url >? 8)
      then drop_last clean_url
      else clean_url).

Definition api_keywords : list string :=
  ["api"; "endpoint"; "swagger"; "openapi"; "spec"; "docs"; "documentation";
   "reference"; "guide"; "tutorial"; "integration"; "developer"; "dev";
   "rest"; "graphql"; "webhook"; "auth"; "authentication"; "oauth";
   "sandbox"; "postman"; "curl"; "json"; "xml"; "response"; "request";
   "psd2"; "aisp"; "pisp"; "cbpii"; "berlin-group"; "stet"; "open-banking"].

Definition negative_keywords : list string :=
  ["login"; "logout"; "register"; "signup"; "signin"; "privacy"; "terms";
   "cookie"; "gdpr"; "legal"; "contact"; "about"; "news"; "blog";
   "career"; "job"; "press"; "media"; "investor"; "support-ticket";
   "forum"; "community"; "social"; "facebook"; "twitter"; "linkedin"].

(** [any(keyword in s for keyword in keywords)], the shape of both
    keyword loops. *)
Definition any_keyword (keywords : list string) (s : string) : bool :=
  existsb (fun keyword => contains keyword s) keywords.

Definition is_api_related_link (url base_url : string) : res bool :=
  b ← urlparse base_url;
  u ← urlparse url;
  let base_domain := Urllib.netloc b in
  let url_domain := Urllib.netloc u in
  if negb (contains base_domain url_domain) && negb (contains url_domain base_domain)
  then Ok false
  else
    let url_lower := lower url in
    if any_keyword negative_keywords url_lower then Ok false
    else if any_keyword api_keywords url_lower then Ok true
    else Ok false.

Definition common_paths : list string :=
  ["/openapi.json"; "/openapi.yaml"; "/openapi.yml";
   "/swagger.json"; "/swagger.yaml"; "/swagger.yml";
   "/api-docs"; "/api-docs.json"; "/api-docs.yaml";
   "/v1/openapi.json"; "/v2/openapi.json"; "/v3/openapi.json";
   "/docs/openapi.json"; "/documentation/openapi.json"].

(** *** The service, the environment and the state of a run *)

Variable World : Type.
Variable scrape_url :
  Firecrawl.Request → World → res (option Firecrawl.Response) * World.

(** [os.getenv("FIRECRAWL_API_KEY")] *)
Variable api_key : option string.

(** [list(set(l))]: the order in which a Python set is iterated is not
    fixed by the language. *)
Variable list_of_set : list string → list string.

Record State := mkState {
  world : World;
  visited_urls : gset string;
  trace : list Event
}.

Definition scrape (site : Site) (req : Firecrawl.Request) (st : State)
  : res (option Firecrawl.Response) * State :=
  let '(out, w) := scrape_url req (world st) in
  (out, mkState w (visited_urls st) (trace st ++ [Fetch site req])).

(** The request for a spec document: [formats=["markdown", "html"]]. *)
Definition spec_request (spec_url : string) : Firecrawl.Request :=
  Firecrawl.mkRequest spec_url [Firecrawl.Markdown; Firecrawl.Html] None None.

(** The candidate recorded for a spec fetch, if any:
    [spec_data and (markdown or html)]; an exception records nothing. *)
Definition spec_of (spec_url : string) (out : res (option Firecrawl.Response))
  : option SpecCandidate :=
  match out with
  | Ok (Some spec_data) =>
      if truthy (Firecrawl.markdown spec_data) || truthy (Firecrawl.html spec_data)
      then Some (mkSpec spec_url (Firecrawl.markdown spec_data)
                   (Firecrawl.html spec_data))
      else None
  | _ => None
  end.

(** The loop of [try_common_openapi_endpoints]. *)
Fixpoint probe_paths (base_url : string) (paths : list string) (st : State)
  : list SpecCandidate * State :=
  match paths with
  | [] => ([], st)
  | path :: rest =>
      let spec_url := base_url +:+ path in
      let '(out, st1) := scrape ProbeFetch (spec_request spec_url) st in
      let '(specs, st2) := probe_paths base_url rest st1 in
      (option_list (spec_of spec_url out) ++ specs, st2)
  end.

Definition try_common_openapi_endpoints (base_url : string) (st : State)
  : list SpecCandidate * State :=
  probe_paths base_url common_paths st.

(** The loop over [openapi_urls[:3]]. *)
Fixpoint fetch_specs (urls : list string) (st : State)
  : list SpecCandidate * State :=
  match urls with
  | [] => ([], st)
  | openapi_url :: rest =>
      let '(out, st1) := scrape SpecFetch (spec_request openapi_url) st in
      let '(specs, st2) := fetch_specs rest st1 in
      (option_list (spec_of openapi_url out) ++ specs, st2)
  end.

(** *** The crawl driver *)

Definition is_pdf (url : string) : bool := endswith ".pdf" (lower url).

(** The main request of a node, by content type. *)
Definition main_request (url : string) : Firecrawl.Request :=
  if is_pdf url
  then Firecrawl.mkRequest url [Firecrawl.Markdown; Firecrawl.Html]
         (Some 120000) (Some 5000)
  else Firecrawl.mkRequest url
         [Firecrawl.Markdown; Firecrawl.Links; Firecrawl.Html; Firecrawl.Screenshot]
         (Some 30000) (Some 2000).

(** The request of the second attempt on a PDF. *)
Definition retry_request (url : string) : Firecrawl.Request :=
  Firecrawl.mkRequest url [Firecrawl.Markdown] (Some 60000) (Some 1000).

(** ["{0.scheme}://{0.netloc}".format(urlparse(url))] *)
Definition base_url_of (url : string) : res string :=
  parsed ← urlparse url;
  Ok (Urllib.scheme parsed +:+ "://" +:+ Urllib.netloc parsed).

Definition openapi_patterns : list string := ["openapi"; "swagger"; "spec"; "api"].

(** The treatment of one match of the HTML scan. *)
Definition resolve_match (base_url match_ : string) : res (list string) :=
  if startswith "/" match_ then
    openapi_url ← urljoin base_url match_;
    Ok [openapi_url]
  else if startswith "http://" match_ || startswith "https://" match_ then
    Ok [match_]
  else Ok [].

(** [for x in l: acc.extend(f x)], stopping at the first exception. *)
Fixpoint collect {A : Type} (f : A → res (list string)) (l : list A)
  : res (list string) :=
  match l with
  | [] => Ok []
  | x :: rest =>
      ys ← f x;
      zs ← collect f rest;
      Ok (ys ++ zs)
  end.

(** The scan of the fetched HTML for links to a spec: [openapi_urls]. *)
Definition find_openapi_urls (html : option string) (base_url : string)
  : res (list string) :=
  if truthy html then
    collect (fun pattern =>
               collect (resolve_match base_url)
                 (findall pattern (default "" html)))
            openapi_patterns
  else Ok [].

(** The treatment of one link of the fetched page. *)
Definition relevant_link (base_url link : string) : res (list string) :=
  if startswith "/" link then
    full_url ← urljoin base_url link;
    full_url ← clean_url full_url;
    related ← is_api_related_link full_url base_url;
    Ok (if related : bool then [full_url] else [])
  else if startswith "http://" link || startswith "https://" link then
    full_url ← clean_url link;
    related ← is_api_related_link full_url base_url;
    Ok (if related : bool then [full_url] else [])
  else Ok [].

(** [api_related_links], after [list(set(...))]; empty when the page has
    no links. *)
Definition api_related_links_of (links : option (list string)) (base_url : string)
  : res (list string) :=
  match links with
  | Some ((_ :: _) as links) =>
      found ← collect (relevant_link base_url) links;
      Ok (list_of_set found)
  | _ => Ok []
  end.

(** [[link for link in api_related_links if link != url][:3]] behind the
    test [depth < max_depth and api_related_links]. *)
Definition relevant_links_of (url : string) (depth max_depth : Z)
    (api_related_links : list string) : list string :=
  if (depth <? max_depth) && negb (bool_decide (api_related_links = []))
  then take 3 (List.filter (fun link => negb (String.eqb link url)) api_related_links)
  else [].

(** Spec discovery on a page that is not a PDF: the fetches of the first
    three embedded candidates, then the probe of the common paths; the
    value of the [openapi_specs] key. *)
Definition discover_specs (openapi_urls : list string) (base_url : string)
    (depth : Z) (st : State) : option (list SpecCandidate) * State :=
  let '(specs, st1) := fetch_specs (take 3 openapi_urls) st in
  let found := match specs with [] => None | _ => Some specs end in
  if bool_decide (openapi_urls = []) && (depth =? 0) then
    let '(common_specs, st2) := try_common_openapi_endpoints base_url st1 in
    match common_specs with
    | [] => (found, st2)
    | _ => (Some (default [] found ++ common_specs), st2)
    end
  else (found, st1).

(** The [try] block up to the exploration of the child pages: the result
    without its child pages, and the links to explore. *)
Definition visit_page (url : string) (depth max_depth : Z) (st : State)
  : res (PageResult * list string) * State :=
  if negb (truthy api_key)
  then (Raise "FIRECRAWL_API_KEY not found in environment variables.", st)
  else
    let '(out, st1) := scrape MainFetch (main_request url) st in
    match out with
    | Raise msg => (Raise msg, st1)
    | Ok None => (Raise "No response received from Firecrawl", st1)
    | Ok (Some scraped_data) =>
        match base_url_of url with
        | Raise msg => (Raise msg, st1)
        | Ok base_url =>
            let content :=
              mkContent (Firecrawl.markdown scraped_data)
                (Firecrawl.html scraped_data)
                (if is_pdf url then None else Firecrawl.screenshot scraped_data) in
            if is_pdf url then (Ok (mkPage url content [] [] None, []), st1)
            else
              match find_openapi_urls (Firecrawl.html scraped_data) base_url with
              | Raise msg => (Raise msg, st1)
              | Ok openapi_urls =>
                  let '(specs, st2) := discover_specs openapi_urls base_url depth st1 in
                  match api_related_links_of (Firecrawl.links scraped_data) base_url with
                  | Raise msg => (Raise msg, st2)
                  | Ok api_related_links =>
                      (Ok (mkPage url content api_related_links [] specs,
                           relevant_links_of url depth max_depth api_related_links),
                       st2)
                  end
              end
        end
    end.

(** The [except] block. *)
Definition handle_failure (url msg : string) (st : State)
  : option PageResult * State :=
  if is_pdf url
     && (contains "timeout" (lower msg) || contains "internal server error" (lower msg))
  then
    let '(out, st1) := scrape RetryFetch (retry_request url) st in
    match out with
    | Ok (Some retry_data) =>
        (Some (mkPage url
                 (mkContent (Firecrawl.markdown retry_data)
                    (Firecrawl.html retry_data) None)
                 [] [] None),
         st1)
    | _ => (None, st1)
    end
  else (None, st).

(** The loop over [relevant_links]; [recur] is the recursive call at
    [depth + 1]. *)
Fixpoint explore (recur : string → State → option (option PageResult * State))
    (relevant_links : list string) (st : State)
  : option (list PageResult * State) :=
  match relevant_links with
  | [] => Some ([], st)
  | child_url :: rest =>
      '(child_content, st1) ← recur child_url st;
      '(pages, st2) ← explore recur rest st1;
      Some (option_list child_content ++ pages, st2)
  end.

Definition mark_visited (url : string) (depth : Z) (st : State) : State :=
  mkState (world st) ({[url]} ∪ visited_urls st) (trace st ++ [Visit url depth]).

Definition with_child_pages (results : PageResult) (pages : list PageResult)
  : PageResult :=
  mkPage (page_url results) (page_content results) (page_links results)
    pages (page_openapi_specs results).

(** [extract_site_content(url, depth, max_depth, visited_urls)].  The
    recursion of the script is bounded by [max_depth - depth]; here it
    descends on [fuel], and [None] is the answer of a run that needs more
    fuel than it was given. *)
Fixpoint extract_site_content (fuel : nat) (url : string) (depth max_depth : Z)
    (st : State) : option (option PageResult * State) :=
  match fuel with
  | O => None
  | S fuel' =>
      if (depth >? max_depth) || bool_decide (url ∈ visited_urls st)
      then Some (None, st)
      else
        let st0 := mark_visited url depth st in
        match visit_page url depth max_depth st0 with
        | (Ok (results, relevant_links), st1) =>
            '(pages, st2) ←
              explore (fun child_url =>
                         extract_site_content fuel' child_url (depth + 1) max_depth)
                      relevant_links st1;
            Some (Some (with_child_pages results pages), st2)
        | (Raise msg, st1) => Some (handle_failure url msg st1)
        end
  end.

(** Fuel that suffices for a call at [depth]. *)
Definition fuel_for (depth max_depth : Z) : nat :=
  S (Z.to_nat (max_depth - depth)).

(** A top-level invocation, as [main] makes it: depth 0 and a fresh
    [visited_urls]. *)
Definition crawl (url : string) (max_depth : Z) (w : World)
  : option (option PageResult * State) :=
  extract_site_content (fuel_for 0 max_depth) url 0 max_depth (mkState w ∅ []).


(** *** Reading a run *)

(** The URLs that were made crawl targets, in order. *)
Definition visits (evs : list Event) : list string :=
  flat_map (fun e => match e with Visit url _ => [url] | _ => [] end) evs.

(** The requests issued from one call site, in order. *)
Definition fetches (site : Site) (evs : list Event) : list Firecrawl.Request :=
  flat_map (fun e => match e with
                     | Fetch s request => if decide (s = site) then [request] else []
                     | _ => []
                     end) evs.

(** The answers of the service to requests made one after the other. *)
Fixpoint scrape_all (requests : list Firecrawl.Request) (w : World)
  : list (res (option Firecrawl.Response)) * World :=
  match requests with
  | [] => ([], w)
  | request :: rest =>
      let '(out, w1) := scrape_url request w in
      let '(outs, w2) := scrape_all rest w1 in
      (out :: outs, w2)
  end.

(** Every page of a result tree, the root first. *)
Fixpoint pages_of (p : PageResult) : list PageResult :=
  p :: flat_map pages_of (page_child_pages p).

(** The bound on the number of pages a call may visit with [fuel] levels
    of recursion left: 1 + 3 + 9 + ... *)
Fixpoint fan_out_bound (fuel : nat) : nat :=
  match fuel with
  | O => O
  | S fuel' => S (3 * fan_out_bound fuel')
  end.

(** *** Character classes of a parsed URL *)

(** A character that [urlsplit] leaves in the path: not one of the
    characters it deletes, and neither the query nor the fragment mark. *)
Definition path_char (c : ascii) : bool :=
  negb (Urllib.unsafe c) && negb (Ascii.eqb c "#") && negb (Ascii.eqb c "?").

(** A scheme as [urlsplit] returns it when it finds one: a letter first,
    scheme characters only, in lower case. *)
Definition is_scheme (s : string) : bool :=
  match s with
  | "" => false
  | String c0 _ =>
      is_ascii_alpha c0 && Urllib.all_chars Urllib.scheme_char s
      && String.eqb (lower s) s
  end.

(** The candidates recorded for spec URLs fetched in order, from the
    answers of the service. *)
Definition recorded (urls : list string)
    (outs : list (res (option Firecrawl.Response))) : list SpecCandidate :=
  omap (fun '(spec_url, out) => spec_of spec_url out) (zip urls outs).

(** A recorded candidate has content: non-empty markdown or HTML. *)
Definition has_content (s : SpecCandidate) : bool :=
  truthy (spec_markdown s) || truthy (spec_html s).

(** The events [evs] lead from [st] to [st']. *)
Definition extends (st st' : State) (evs : list Event) : Prop :=
  trace st' = trace st ++ evs.

(** A stretch of a run that makes no new crawl target: the visited set is
    untouched, and nothing but requests from the call sites [sites] was
    added to the trace. *)
Definition quiet (sites : list Site) (st st' : State) (evs : list Event) : Prop :=
  extends st st' evs
  ∧ visited_urls st' = visited_urls st
  ∧ Forall (fun e => match e with
                     | Fetch site _ => site ∈ sites
                     | Visit _ _ => False
                     end) evs.

(** The crawl invariant over a stretch of a run: every new crawl target
    is new to the visited set and is added to it, no target occurs twice,
    and the main fetches go to crawl targets, each at most once. *)
Definition crawl_inv (st st' : State) (evs : list Event) : Prop :=
  extends st st' evs
  ∧ visited_urls st' = visited_urls st ∪ list_to_set (visits evs)
  ∧ NoDup (visits evs)
  ∧ (∀ url, url ∈ visits evs → url ∉ visited_urls st)
  ∧ sublist (Firecrawl.url <$> fetches MainFetch evs) (visits evs).

(** The test of the [except] block for a second attempt. *)
Definition retries (url msg : string) : bool :=
  is_pdf url
  && (contains "timeout" (lower msg) || contains "internal server error" (lower msg)).

(** The page built from the answer to a second attempt. *)
Definition retry_page (url : string) (retry_data : Firecrawl.Response) : PageResult :=
  mkPage url
    (mkContent (Firecrawl.markdown retry_data) (Firecrawl.html retry_data) None)
    [] [] None.

(** The child pages of a node come, in order, from the first three
    recorded links other than the node's own URL. *)
Definition fan_out_ok (p : PageResult) : Prop :=
  sublist (page_url <$> page_child_pages p)
    (take 3 (List.filter (fun link => negb (String.eqb link (page_url p)))
               (page_links p))).


(** *** The connection test and [main] *)

(** The request of [test_firecrawl_connection]. *)
Definition test_request : Firecrawl.Request :=
  Firecrawl.mkRequest "https://httpbin.org/json" [Firecrawl.Markdown] None None.

(** [test_firecrawl_connection()]: the answer and the service afterwards.
    Every exception ends in [False]. *)
Definition test_firecrawl_connection (w : World) : bool * World :=
  if negb (truthy api_key) then (false, w)
  else
    let '(out, w1) := scrape_url test_request w in
    (match out with
     | Ok (Some _) => true
     | _ => false
     end, w1).

(** The command-line arguments that decide what is crawled. *)
Record Args := mkArgs {
  args_url : string;
  args_recursive : bool;
  args_max_depth : Z
}.

(** [main()], from the connection test to the data that is handed to
    [save_output]: the extracted page, or nothing when the test fails or
    the extraction comes back empty, with the state of the run.  Parsing
    the arguments, printing and writing the file are left out. *)
Definition main (args : Args) (w : World) : option (option PageResult * State) :=
  let '(connected, w1) := test_firecrawl_connection w in
  if connected then
    let max_depth := if args_recursive args then args_max_depth args else 0 in
    crawl (args_url args) max_depth w1
  else Some (None, mkState w1 ∅ []).

(** *** More ways to read a run *)

(** All requests of a run, in order. *)
Definition requests (evs : list Event) : list Firecrawl.Request :=
  flat_map (fun e => match e with Fetch _ request => [request] | _ => [] end) evs.

(** The depths at which the crawl targets of a run were visited. *)
Definition visit_depths (evs : list Event) : list Z :=
  flat_map (fun e => match e with Visit _ depth => [depth] | _ => [] end) evs.

(** The number of levels of a result tree. *)
Fixpoint height (p : PageResult) : nat :=
  S (fold_right (fun child acc => Nat.max (height child) acc) O
       (page_child_pages p)).


(** What holds of the links a page records: either there are none, or
    they are [list(set(found))] for links [found] that each came out of
    [clean_url] and passed [is_api_related_link] against the base URL of
    the page. *)
Definition links_ok (q : PageResult) : Prop :=
  page_links q = []
  ∨ ∃ base_url found,
      base_url_of (page_url q) = Ok base_url
      ∧ page_links q = list_of_set found
      ∧ Forall (fun link =>
                  is_api_related_link link base_url = Ok true
                  ∧ has_char "?" link = false ∧ has_char "#" link = false)
          found.

(** *** The name of the output file *)

(** [generate_output_filename(country, service_type, bank, format_type)]
    with [timestamp] for [datetime.now().strftime("%Y%m%d_%H%M%S")]: the
    directory that is created, and the path that is returned. *)
Definition generate_output_filename
    (country service_type bank format_type timestamp : string) : string * string :=
  let output_dir := Posixpath.join "outputs" [country; service_type; bank] in
  let filename := "raw_content_" +:+ timestamp +:+ "." +:+ format_type in
  (output_dir, Posixpath.join output_dir [filename]).

(** A path component that [os.path.join] appends behind one separator:
    not empty, and no slash at either end. *)
Definition plain_component (c : string) : bool :=
  negb (String.eqb c "") && negb (startswith "/" c) && negb (endswith "/" c).

Abbreviation all_chars := Urllib.all_chars.

(** ** Properties of the URL classifier *)

Lemma bind_Ok {A B : Type} (a : A) (f : A → res B) : (Ok a ≫= f) = f a.
Proof. reflexivity. Qed.

Lemma bind_Raise {A B : Type} (msg : string) (f : A → res B) :
  (Raise msg ≫= f) = Raise msg.
Proof. reflexivity. Qed.

Lemma bind_Ok_inv {A B : Type} (m : res A) (f : A → res B) (b : B) :
  (m ≫= f) = Ok b → ∃ a, m = Ok a ∧ f a = Ok b.
Proof. destruct m as [a|msg]; [eauto | discriminate]. Qed.

Lemma is_api_related_link_unfold url base_url u b :
  urlparse url = Ok u → urlparse base_url = Ok b →
  is_api_related_link url base_url =
    Ok (if negb (contains (Urllib.netloc b) (Urllib.netloc u))
           && negb (contains (Urllib.netloc u) (Urllib.netloc b))
        then false
        else negb (any_keyword negative_keywords (lower url))
             && any_keyword api_keywords (lower url)).
Proof.
  intros Hu Hb. unfold is_api_related_link.
  rewrite Hb, bind_Ok, Hu, bind_Ok. cbv zeta.
  destruct (negb _ && negb _); [reflexivity|].
  destruct (any_keyword negative_keywords _); cbn [negb andb]; [reflexivity|].
  destruct (any_keyword api_keywords _); reflexivity.
Qed.

Lemma any_keyword_true keywords s :
  any_keyword keywords s = true ↔
  ∃ keyword, In keyword keywords ∧ contains keyword s = true.
Proof. unfold any_keyword. apply existsb_exists. Qed.

Lemma any_keyword_false keywords s :
  any_keyword keywords s = false ↔
  ∀ keyword, In keyword keywords → contains keyword s = false.
Proof.
  split.
  - intros H k Hk. destruct (contains k s) eqn:E; [|reflexivity].
    assert (any_keyword keywords s = true) by (apply any_keyword_true; eauto).
    congruence.
  - intros H. destruct (any_keyword keywords s) eqn:E; [|reflexivity].
    apply any_keyword_true in E as (k & Hk & Hc). rewrite (H k Hk) in Hc. discriminate.
Qed.


(** C5.  Behind the same-domain check a negative keyword in the lowercased
    URL decides for [false], also when a positive keyword is present;
    without a negative keyword the answer is [true] exactly when a
    positive keyword occurs. *)
Theorem is_api_related_link_keywords url base_url u b :
  urlparse url = Ok u → urlparse base_url = Ok b →
  contains (Urllib.netloc b) (Urllib.netloc u) = true
  ∨ contains (Urllib.netloc u) (Urllib.netloc b) = true →
  ((∃ keyword, In keyword negative_keywords ∧ contains keyword (lower url) = true) →
   is_api_related_link url base_url = Ok false)
  ∧ ((∀ keyword, In keyword negative_keywords → contains keyword (lower url) = false) →
     ∃ answer, is_api_related_link url base_url = Ok answer
       ∧ (answer = true ↔
          ∃ keyword, In keyword api_keywords ∧ contains keyword (lower url) = true)).
Proof.
  intros Hu Hb Hdom.
  rewrite (is_api_related_link_unfold _ _ _ _ Hu Hb).
  assert (negb (contains (Urllib.netloc b) (Urllib.netloc u))
          && negb (contains (Urllib.netloc u) (Urllib.netloc b)) = false) as ->.
  { destruct Hdom as [-> | ->]; simpl; [reflexivity | apply andb_false_r]. }
  split.
  - intros Hneg. apply any_keyword_true in Hneg. rewrite Hneg. reflexivity.
  - intros Hneg. apply any_keyword_false in Hneg. rewrite Hneg. cbn [negb andb].
    eexists. split; [reflexivity|]. apply any_keyword_true.
Qed.

(** ** Lemmas on strings *)

Lemma sapp_cons c (a b : string) : String c a +:+ b = String c (a +:+ b).
Proof. reflexivity. Qed.

Lemma sapp_nil_l (s : string) : "" +:+ s = s.
Proof. reflexivity. Qed.

Lemma sapp_nil_r (s : string) : s +:+ "" = s.
Proof. induction s as [|c s IH]; [reflexivity|]. rewrite sapp_cons, IH. reflexivity. Qed.

Lemma sapp_assoc (a b c : string) : (a +:+ b) +:+ c = a +:+ (b +:+ c).
Proof.
  induction a as [|x a IH]; [reflexivity|]. rewrite !sapp_cons, IH. reflexivity.
Qed.

Lemma slength_app (a b : string) :
  String.length (a +:+ b) = (String.length a + String.length b)%nat.
Proof. induction a as [|x a IH]; [reflexivity|]. rewrite sapp_cons. simpl. lia. Qed.

Lemma all_chars_app P (a b : string) :
  all_chars P (a +:+ b) = all_chars P a && all_chars P b.
Proof.
  induction a as [|x a IH]; [reflexivity|].
  rewrite sapp_cons. simpl. rewrite IH, andb_assoc. reflexivity.
Qed.

Lemma all_chars_impl (P Q : ascii → bool) (s : string) :
  (∀ c, P c = true → Q c = true) → all_chars P s = true → all_chars Q s = true.
Proof.
  intros HPQ. induction s as [|c s IH]; [reflexivity|]. simpl.
  intros [Hc Hs]%andb_true_iff. rewrite (HPQ c Hc), (IH Hs). reflexivity.
Qed.

Lemma all_chars_and (P Q : ascii → bool) (s : string) :
  all_chars P s = true → all_chars Q s = true →
  all_chars (fun c => P c && Q c) s = true.
Proof.
  induction s as [|c s IH]; [reflexivity|]. simpl.
  intros [-> Hs]%andb_true_iff [-> Hs']%andb_true_iff. simpl. auto.
Qed.

Lemma has_char_false c (s : string) :
  has_char c s = false ↔ all_chars (fun a => negb (Ascii.eqb a c)) s = true.
Proof.
  induction s as [|a s IH]; simpl; [tauto|].
  rewrite orb_false_iff, andb_true_iff, negb_true_iff, IH. tauto.
Qed.

Lemma has_char_app c (a b : string) :
  has_char c (a +:+ b) = has_char c a || has_char c b.
Proof.
  induction a as [|x a IH]; [reflexivity|].
  rewrite sapp_cons. simpl. rewrite IH, orb_assoc. reflexivity.
Qed.

(** [break_at] cuts a string in two, before the first character of the
    class. *)
Lemma break_at_spec P (s a b : string) :
  break_at P s = (a, b) →
  s = a +:+ b
  ∧ all_chars (fun c => negb (P c)) a = true
  ∧ match b with "" => True | String c _ => P c = true end.
Proof.
  revert a b. induction s as [|c s IH]; intros a b; simpl.
  - intros [= <- <-]. auto.
  - destruct (P c) eqn:Hc.
    + intros [= <- <-]. auto.
    + destruct (break_at P s) as [a' b']. intros [= <- <-].
      destruct (IH _ _ eq_refl) as (-> & Ha & Hb).
      rewrite sapp_cons. simpl. rewrite Hc, Ha. auto.
Qed.

Lemma break_at_app P (a b : string) :
  all_chars (fun c => negb (P c)) a = true →
  match b with "" => True | String c _ => P c = true end →
  break_at P (a +:+ b) = (a, b).
Proof.
  intros Ha Hb. induction a as [|c a IH].
  - rewrite sapp_nil_l. destruct b as [|c b]; simpl; [reflexivity|]. rewrite Hb. reflexivity.
  - rewrite sapp_cons. simpl in *. apply andb_true_iff in Ha as [Hc Ha].
    apply negb_true_iff in Hc. rewrite Hc, (IH Ha). reflexivity.
Qed.


Lemma remove_chars_free P (s : string) :
  all_chars (fun c => negb (P c)) (remove_chars P s) = true.
Proof.
  induction s as [|c s IH]; [reflexivity|]. simpl.
  destruct (P c) eqn:Hc; [exact IH|]. simpl. rewrite Hc, IH. reflexivity.
Qed.



Lemma all_chars_drop_last P (s : string) :
  all_chars P s = true → all_chars P (drop_last s) = true.
Proof.
  induction s as [|c s IH]; [reflexivity|]. simpl.
  intros [Hc Hs]%andb_true_iff. destruct s; [reflexivity|].
  change (all_chars P (String c (drop_last (String a s))) = true).
  simpl all_chars at 1. rewrite Hc. exact (IH Hs).
Qed.


(** ** Lemmas on characters, by enumeration of the 256 code points *)

Ltac by_chars :=
  let c := fresh "c" in
  intros c; destruct c as [[] [] [] [] [] [] [] []]; vm_compute;
  repeat split; intros; solve [reflexivity | discriminate | congruence | tauto].

Lemma lower_char_idem : ∀ c, lower_char (lower_char c) = lower_char c.
Proof. by_chars. Qed.

Lemma scheme_char_lower : ∀ c, Urllib.scheme_char c = true → Urllib.scheme_char (lower_char c) = true.
Proof. by_chars. Qed.

Lemma is_ascii_alpha_lower : ∀ c, is_ascii_alpha c = true → is_ascii_alpha (lower_char c) = true.
Proof. by_chars. Qed.



Lemma lower_idem (s : string) : lower (lower s) = lower s.
Proof. induction s as [|c s IH]; [reflexivity|]. simpl. rewrite lower_char_idem, IH. reflexivity. Qed.

Lemma all_scheme_chars_lower (s : string) :
  all_chars Urllib.scheme_char s = true → all_chars Urllib.scheme_char (lower s) = true.
Proof.
  induction s as [|c s IH]; [reflexivity|]. simpl.
  intros [Hc Hs]%andb_true_iff. rewrite (scheme_char_lower _ Hc), (IH Hs). reflexivity.
Qed.

Lemma md_sub_from_id (s : string) :
  has_char "[" s = false → md_sub_from O s = s.
Proof.
  induction s as [|c s IH]; [reflexivity|].
  intros H. simpl in H. apply orb_false_iff in H as [Hc Hs].
  cbn [md_sub_from]. unfold md_link_at.
  destruct c as [[] [] [] [] [] [] [] []]; try discriminate Hc; rewrite (IH Hs); reflexivity.
Qed.

(** ** [clean_url] on a URL that is already clean *)




(** ** The shape of a cleaned URL *)

Lemma all_chars_prefix P (s a t : string) :
  s = a +:+ t → all_chars P s = true → all_chars P a = true.
Proof. intros ->. rewrite all_chars_app. intros [H _]%andb_true_iff. exact H. Qed.

Lemma all_chars_suffix P (s a t : string) :
  s = a +:+ t → all_chars P s = true → all_chars P t = true.
Proof. intros ->. rewrite all_chars_app. intros [_ H]%andb_true_iff. exact H. Qed.

Lemma path_char_iff (s : string) :
  all_chars path_char s = true ↔
  all_chars (fun c => negb (Urllib.unsafe c)) s = true
  ∧ has_char "#" s = false ∧ has_char "?" s = false.
Proof.
  rewrite !has_char_false. unfold path_char.
  induction s as [|c s IH]; simpl; [tauto|].
  rewrite !andb_true_iff, IH. tauto.
Qed.

Lemma partition_spec c (s a b : string) (found : bool) :
  partition c s = (a, found, b) →
  has_char c a = false
  ∧ if found then s = a +:+ String c b else s = a ∧ b = "".
Proof.
  unfold partition. destruct (break_at (Ascii.eqb c) s) as [a' b'] eqn:Hb.
  destruct (break_at_spec _ _ _ _ Hb) as (-> & Ha & Hc).
  assert (has_char c a' = false) as Hfree.
  { apply has_char_false. revert Ha. apply all_chars_impl.
    intros x Hx. rewrite Ascii.eqb_sym. exact Hx. }
  destruct b' as [|x b'].
  - intros [= <- <- <-]. rewrite sapp_nil_r. auto.
  - intros [= <- <- <-]. apply Ascii.eqb_eq in Hc as <-. auto.
Qed.

Lemma split_once_spec c (s a b : string) :
  Urllib.split_once c s = (a, b) → has_char c a = false → ∃ t, s = a +:+ t.
Proof.
  unfold Urllib.split_once. destruct (partition c s) as [[a' found] b'] eqn:Hp.
  destruct (partition_spec _ _ _ _ _ Hp) as (Hfree & Hs).
  destruct found.
  - intros [= <- <-] _. eauto.
  - intros [= <- <-] _. exists "". rewrite sapp_nil_r. reflexivity.
Qed.

Lemma split_once_free c (s a b : string) :
  Urllib.split_once c s = (a, b) → has_char c a = false.
Proof.
  unfold Urllib.split_once. destruct (partition c s) as [[a' found] b'] eqn:Hp.
  destruct (partition_spec _ _ _ _ _ Hp) as (Hfree & Hs).
  destruct found.
  - intros [= <- <-]. exact Hfree.
  - intros [= <- <-]. destruct Hs as [-> _]. exact Hfree.
Qed.

Lemma split_once_prefix c (s a b : string) :
  Urllib.split_once c s = (a, b) → ∃ t, s = a +:+ t.
Proof. intros H. eapply split_once_spec; [exact H | eapply split_once_free, H]. Qed.

Lemma rpartition_spec c (s h t : string) :
  rpartition c s = Some (h, t) → s = h +:+ String c t.
Proof.
  revert h t. induction s as [|a s IH]; intros h t; simpl; [discriminate|].
  destruct (rpartition c s) as [[h' t']|].
  - intros [= <- <-]. rewrite sapp_cons, (IH _ _ eq_refl). reflexivity.
  - destruct (Ascii.eqb_spec a c) as [->|]; [|discriminate].
    intros [= <- <-]. reflexivity.
Qed.

Lemma splitparams_prefix (s a b : string) :
  Urllib.splitparams s = (a, b) → ∃ t, s = a +:+ t.
Proof.
  unfold Urllib.splitparams. destruct (rpartition "/" s) as [[h t]|] eqn:Hr.
  - apply rpartition_spec in Hr as ->.
    destruct (partition ";" t) as [[a' found] b'] eqn:Hp.
    destruct (partition_spec _ _ _ _ _ Hp) as (_ & Ht).
    destruct found.
    + intros [= <- <-]. subst t. exists (String ";" b').
      rewrite !sapp_assoc. reflexivity.
    + intros [= <- <-]. exists "". rewrite sapp_nil_r. reflexivity.
  - apply split_once_prefix.
Qed.

Lemma split_scheme_spec dflt url sch rest :
  Urllib.split_scheme dflt url = (sch, rest) →
  (sch = dflt ∧ rest = url)
  ∨ (is_scheme sch = true ∧ ∃ pre, url = pre +:+ String ":" rest).
Proof.
  unfold Urllib.split_scheme.
  destruct (partition ":" url) as [[pre found] rest'] eqn:Hp.
  destruct (partition_spec _ _ _ _ _ Hp) as (_ & Hs).
  destruct pre as [|c0 pre']; [intros [= <- <-]; auto|].
  destruct found; [|intros [= <- <-]; auto].
  destruct (is_ascii_alpha c0 && all_chars Urllib.scheme_char (String c0 pre')) eqn:Hok;
    [|intros [= <- <-]; auto].
  intros [= <- <-]. right. split; [|eauto].
  apply andb_true_iff in Hok as [Hc0 Hall].
  change (lower (String c0 pre')) with (String (lower_char c0) (lower pre')).
  unfold is_scheme. rewrite (is_ascii_alpha_lower _ Hc0).
  change (String (lower_char c0) (lower pre')) with (lower (String c0 pre')).
  rewrite (all_scheme_chars_lower _ Hall), lower_idem, String.eqb_refl. reflexivity.
Qed.

Lemma split_netloc_spec (url nl rest : string) :
  Urllib.split_netloc url = (nl, rest) →
  all_chars (fun c => negb (Urllib.netloc_delim c)) nl = true
  ∧ ∃ pre, url = pre +:+ nl +:+ rest.
Proof.
  assert (Hdflt : ("", url) = (nl, rest) →
                  all_chars (fun c => negb (Urllib.netloc_delim c)) nl = true
                  ∧ ∃ pre, url = pre +:+ nl +:+ rest).
  { intros [= <- <-]. split; [reflexivity|]. exists "". reflexivity. }
  destruct url as [|c1 [|c2 r]]; try exact Hdflt.
  - destruct c1 as [[] [] [] [] [] [] [] []]; exact Hdflt.
  - destruct c1 as [[] [] [] [] [] [] [] []]; try exact Hdflt.
    destruct c2 as [[] [] [] [] [] [] [] []]; try exact Hdflt.
    clear Hdflt. cbn [Urllib.split_netloc]. intros Hb.
    destruct (break_at_spec _ _ _ _ Hb) as (-> & Hn & _).
    split; [exact Hn|]. exists "//". reflexivity.
Qed.

Lemma urlparse_shape url p :
  urlparse url = Ok p →
  (Urllib.scheme p = "" ∨ is_scheme (Urllib.scheme p) = true)
  ∧ all_chars path_char (Urllib.netloc p +:+ Urllib.path p) = true.
Proof.
  unfold Urllib.urlparse, Urllib.urlparse_with. intros H.
  apply bind_Ok_inv in H as ([[[[sch nl] u3] q] f] & Hs & Hp).
  unfold Urllib.urlsplit in Hs.
  pose proof (remove_chars_free Urllib.unsafe (lstrip Urllib.c0_or_space url)) as Hsafe.
  set (W := remove_chars Urllib.unsafe (lstrip Urllib.c0_or_space url)) in *.
  destruct (Urllib.split_scheme _ W) as [sch0 rest] eqn:Hsch.
  destruct (Urllib.split_netloc rest) as [nl0 r1] eqn:Hnl.
  destruct (Urllib.check_brackets _ nl0); [discriminate|].
  destruct (Urllib.split_once "#" r1) as [r2 f0] eqn:Hf.
  destruct (Urllib.split_once "?" r2) as [r3 q0] eqn:Hq.
  injection Hs as <- <- <- <- <-.
  (* what is left of the URL behind the scheme is free of deleted characters *)
  assert (Hrest : all_chars (fun c => negb (Urllib.unsafe c)) rest = true).
  { destruct (split_scheme_spec _ _ _ _ Hsch) as [[_ ->] | (_ & pre & HW)]; [exact Hsafe|].
    apply (all_chars_suffix _ _ _ _ HW) in Hsafe.
    simpl in Hsafe. exact Hsafe. }
  destruct (split_netloc_spec _ _ _ Hnl) as (Hdelim & pre & Hrest_eq).
  pose proof (all_chars_suffix _ _ _ _ Hrest_eq Hrest) as Hnr.
  rewrite all_chars_app in Hnr. apply andb_true_iff in Hnr as [Hnl_safe Hr1_safe].
  destruct (split_once_prefix _ _ _ _ Hf) as (t2 & Hr1).
  destruct (split_once_prefix _ _ _ _ Hq) as (t3 & Hr2).
  pose proof (split_once_free _ _ _ _ Hf) as Hr2_hash.
  pose proof (split_once_free _ _ _ _ Hq) as Hr3_q.
  assert (Hr3 : all_chars path_char r3 = true).
  { apply path_char_iff. repeat split.
    - eapply all_chars_prefix; [exact Hr2|]. eapply all_chars_prefix; [exact Hr1|]. exact Hr1_safe.
    - rewrite Hr2, has_char_app in Hr2_hash. apply orb_false_iff in Hr2_hash as [H _]. exact H.
    - exact Hr3_q. }
  assert (Hnl0 : all_chars path_char nl0 = true).
  { apply path_char_iff. repeat split; [exact Hnl_safe| |].
    - apply has_char_false. revert Hdelim. apply all_chars_impl.
      intros c Hc. unfold Urllib.netloc_delim in Hc. simpl in Hc.
      rewrite !negb_orb, !andb_true_iff in Hc. tauto.
    - apply has_char_false. revert Hdelim. apply all_chars_impl.
      intros c Hc. unfold Urllib.netloc_delim in Hc. simpl in Hc.
      rewrite !negb_orb, !andb_true_iff in Hc. tauto. }
  assert (Hpath : ∃ t, r3 = Urllib.path p +:+ t ∧ Urllib.netloc p = nl0
                       ∧ Urllib.scheme p = sch0).
  { cbv beta iota in Hp.
    destruct (Urllib.mem sch0 Urllib.uses_params && has_char ";" r3).
    - destruct (Urllib.splitparams r3) as [a b] eqn:Hsp.
      destruct (splitparams_prefix _ _ _ Hsp) as (t & Ht).
      injection Hp as <-. exists t. auto.
    - injection Hp as <-. exists "". rewrite sapp_nil_r. auto. }
  destruct Hpath as (t & Ht & -> & ->). split.
  - destruct (split_scheme_spec _ _ _ _ Hsch) as [[-> _] | (Hok & _)]; [left; reflexivity | right; exact Hok].
  - rewrite all_chars_app, Hnl0. apply (all_chars_prefix _ _ _ _ Ht Hr3).
Qed.

Lemma is_scheme_inv (sch : string) :
  is_scheme sch = true →
  ∃ c0 sch', sch = String c0 sch' ∧ is_ascii_alpha c0 = true
             ∧ all_chars Urllib.scheme_char sch = true ∧ lower sch = sch.
Proof.
  destruct sch as [|c0 sch']; [discriminate|]. unfold is_scheme.
  intros [[H1 H2]%andb_true_iff H3]%andb_true_iff.
  apply String.eqb_eq in H3. eauto 10.
Qed.



(** ** The requests of a run *)

Lemma scrape_spec site req st out st' :
  scrape site req st = (out, st') →
  scrape_url req (world st) = (out, world st')
  ∧ visited_urls st' = visited_urls st
  ∧ trace st' = trace st ++ [Fetch site req].
Proof.
  unfold scrape. destruct (scrape_url req (world st)) as [out' w].
  intros [= <- <-]. auto.
Qed.

Lemma spec_of_content u out s :
  spec_of u out = Some s →
  has_content s = true ∧ spec_url s = u.
Proof.
  unfold spec_of, has_content. destruct out as [[d|]|]; try discriminate.
  destruct (truthy (Firecrawl.markdown d) || truthy (Firecrawl.html d)) eqn:E;
    [|discriminate].
  intros [= <-]. auto.
Qed.

Lemma recorded_content urls outs :
  Forall (fun s => has_content s = true) (recorded urls outs).
Proof.
  unfold recorded. apply Forall_forall. intros s Hs.
  apply list_elem_of_omap in Hs as ([u out] & _ & Hs).
  apply (spec_of_content _ _ _ Hs).
Qed.

(** The spec loop fetches each URL once, in order, whatever the answers,
    and records the candidates with content. *)
Lemma fetch_specs_spec urls st specs st' :
  fetch_specs urls st = (specs, st') →
  ∃ outs,
    scrape_all (map spec_request urls) (world st) = (outs, world st')
    ∧ specs = recorded urls outs
    ∧ visited_urls st' = visited_urls st
    ∧ trace st' = trace st ++ map (Fetch SpecFetch) (map spec_request urls).
Proof.
  revert st specs st'. induction urls as [|u urls IH]; intros st specs st'; simpl.
  - intros [= <- <-]. exists []. rewrite List.app_nil_r. auto.
  - destruct (scrape SpecFetch (spec_request u) st) as [out st1] eqn:Hs.
    destruct (fetch_specs urls st1) as [specs' st2] eqn:Hf.
    intros [= <- <-].
    destruct (scrape_spec _ _ _ _ _ Hs) as (Hw & Hv & Ht).
    destruct (IH _ _ _ Hf) as (outs & Hall & -> & Hv' & Ht').
    exists (out :: outs). simpl. rewrite Hw, Hall, Hv', Hv, Ht', Ht, <- List.app_assoc.
    repeat split. unfold recorded. simpl. destruct (spec_of u out); reflexivity.
Qed.

Lemma probe_paths_spec base_url paths st specs st' :
  probe_paths base_url paths st = (specs, st') →
  let urls := map (fun path => base_url +:+ path) paths in
  ∃ outs,
    scrape_all (map spec_request urls) (world st) = (outs, world st')
    ∧ specs = recorded urls outs
    ∧ visited_urls st' = visited_urls st
    ∧ trace st' = trace st ++ map (Fetch ProbeFetch) (map spec_request urls).
Proof.
  revert st specs st'. induction paths as [|p paths IH]; intros st specs st'; simpl.
  - intros [= <- <-]. exists []. rewrite List.app_nil_r. auto.
  - destruct (scrape ProbeFetch (spec_request (base_url +:+ p)) st) as [out st1] eqn:Hs.
    destruct (probe_paths base_url paths st1) as [specs' st2] eqn:Hf.
    intros [= <- <-].
    destruct (scrape_spec _ _ _ _ _ Hs) as (Hw & Hv & Ht).
    destruct (IH _ _ _ Hf) as (outs & Hall & -> & Hv' & Ht').
    exists (out :: outs). simpl. rewrite Hw, Hall, Hv', Hv, Ht', Ht, <- List.app_assoc.
    repeat split. unfold recorded. simpl.
    destruct (spec_of (base_url +:+ p) out); reflexivity.
Qed.

Lemma discover_specs_spec openapi_urls base_url depth st specs st' :
  discover_specs openapi_urls base_url depth st = (specs, st') →
  let probes :=
    if bool_decide (openapi_urls = []) && (depth =? 0)
    then map (fun path => base_url +:+ path) common_paths else [] in
  trace st' = trace st
              ++ map (Fetch SpecFetch) (map spec_request (take 3 openapi_urls))
              ++ map (Fetch ProbeFetch) (map spec_request probes)
  ∧ visited_urls st' = visited_urls st
  ∧ (∀ l, specs = Some l → l ≠ [] ∧ Forall (fun s => has_content s = true) l).
Proof.
  unfold discover_specs.
  destruct (fetch_specs (take 3 openapi_urls) st) as [found st1] eqn:Hf.
  destruct (fetch_specs_spec _ _ _ _ Hf) as (outs & _ & -> & Hv & Ht).
  pose proof (recorded_content (take 3 openapi_urls) outs) as Hc.
  destruct (bool_decide (openapi_urls = []) && (depth =? 0)).
  - unfold try_common_openapi_endpoints.
    destruct (probe_paths base_url common_paths st1) as [common st2] eqn:Hp.
    destruct (probe_paths_spec _ _ _ _ _ Hp) as (outs' & _ & -> & Hv' & Ht').
    pose proof (recorded_content (map (fun path => base_url +:+ path) common_paths) outs') as Hc'.
    intros H. cbv zeta. rewrite List.app_assoc, <- Ht, <- Hv, <- Ht', <- Hv'.
    destruct (recorded (map _ common_paths) outs') as [|c cs] eqn:Hrec;
      injection H as <- <-; (split; [reflexivity|]; split; [reflexivity|]).
    + intros l Hl. destruct (recorded (take 3 openapi_urls) outs); [discriminate|].
      injection Hl as <-. split; [discriminate | exact Hc].
    + intros l [= <-]. split.
      * destruct (recorded (take 3 openapi_urls) outs); discriminate.
      * apply Forall_app. split; [|exact Hc'].
        destruct (recorded (take 3 openapi_urls) outs); [constructor | exact Hc].
  - intros [= <- <-]. cbv zeta. simpl. rewrite List.app_nil_r.
    split; [exact Ht|]. split; [exact Hv|].
    intros l Hl. destruct (recorded (take 3 openapi_urls) outs); [discriminate|].
    injection Hl as <-. split; [discriminate | exact Hc].
Qed.

Lemma quiet_refl sites st : quiet sites st st [].
Proof. unfold quiet, extends. rewrite List.app_nil_r. auto. Qed.

Lemma quiet_trans sites st st1 st2 evs1 evs2 :
  quiet sites st st1 evs1 → quiet sites st1 st2 evs2 →
  quiet sites st st2 (evs1 ++ evs2).
Proof.
  unfold quiet, extends. intros (Ht1 & Hv1 & He1) (Ht2 & Hv2 & He2).
  rewrite Ht2, Ht1, Hv2, Hv1, List.app_assoc. repeat split. apply Forall_app. auto.
Qed.

Lemma quiet_fetches sites st st' site reqs :
  site ∈ sites → trace st' = trace st ++ map (Fetch site) reqs →
  visited_urls st' = visited_urls st →
  quiet sites st st' (map (Fetch site) reqs).
Proof.
  intros Hs Ht Hv. repeat split; [exact Ht | exact Hv |].
  apply Forall_forall. intros e He. apply list_elem_of_In, in_map_iff in He as (r & <- & _).
  exact Hs.
Qed.

Lemma scrape_quiet sites site req st out st' :
  site ∈ sites → scrape site req st = (out, st') →
  quiet sites st st' [Fetch site req].
Proof.
  intros Hs (_ & Hv & Ht)%scrape_spec.
  apply (quiet_fetches sites st st' site [req]); assumption.
Qed.

Lemma discover_specs_quiet openapi_urls base_url depth st specs st' :
  discover_specs openapi_urls base_url depth st = (specs, st') →
  ∃ evs, quiet [SpecFetch; ProbeFetch] st st' evs.
Proof.
  intros (Ht & Hv & _)%discover_specs_spec. eexists. repeat split; [exact Ht | exact Hv |].
  apply Forall_app. split; apply Forall_forall; intros e He;
    apply list_elem_of_In, in_map_iff in He as (r & <- & _); repeat constructor.
Qed.

Lemma visits_app evs1 evs2 : visits (evs1 ++ evs2) = visits evs1 ++ visits evs2.
Proof. apply flat_map_app. Qed.

Lemma fetches_app site evs1 evs2 :
  fetches site (evs1 ++ evs2) = fetches site evs1 ++ fetches site evs2.
Proof. apply flat_map_app. Qed.

Lemma quiet_visits sites st st' evs : quiet sites st st' evs → visits evs = [].
Proof.
  intros (_ & _ & He). induction He as [|e evs He _ IH]; [reflexivity|].
  simpl. destruct e; [contradiction | exact IH].
Qed.

Lemma quiet_no_fetches sites site st st' evs :
  quiet sites st st' evs → site ∉ sites → fetches site evs = [].
Proof.
  intros (_ & _ & He) Hs. induction He as [|e evs He _ IH]; [reflexivity|].
  simpl. destruct e as [|s r]; [contradiction|].
  destruct (decide (s = site)) as [->|]; [contradiction | exact IH].
Qed.

Lemma quiet_mono sites sites' st st' evs :
  sites ⊆ sites' → quiet sites st st' evs → quiet sites' st st' evs.
Proof.
  intros Hsub (Ht & Hv & He). repeat split; [exact Ht | exact Hv |].
  eapply Forall_impl; [exact He|]. intros [|s r]; [tauto|]. apply Hsub.
Qed.

(** The [try] block of a node up to the exploration: one main fetch at
    most, then spec fetches and probes; no crawl target is made. *)
Lemma visit_page_quiet url depth max_depth st r st' :
  visit_page url depth max_depth st = (r, st') →
  ∃ evs, quiet [MainFetch; SpecFetch; ProbeFetch] st st' evs
         ∧ sublist (fetches MainFetch evs) [main_request url].
Proof.
  unfold visit_page. destruct (negb (truthy api_key)).
  { intros [= <- <-]. exists []. split; [apply quiet_refl | apply sublist_nil_l]. }
  destruct (scrape MainFetch (main_request url) st) as [out st1] eqn:Hs.
  assert (Hq1 : quiet [MainFetch; SpecFetch; ProbeFetch] st st1
                  [Fetch MainFetch (main_request url)]).
  { eapply scrape_quiet; [|exact Hs]. repeat constructor. }
  assert (Hone : ∀ r0, (r0, st1) = (r, st') →
            ∃ evs, quiet [MainFetch; SpecFetch; ProbeFetch] st st' evs
                   ∧ sublist (fetches MainFetch evs) [main_request url]).
  { intros r0 [= <- <-]. eexists. split; [exact Hq1|]. simpl. reflexivity. }
  destruct out as [[data|]|msg]; [| apply Hone..].
  destruct (base_url_of url) as [base_url|msg]; [| apply Hone].
  destruct (is_pdf url); [apply Hone|].
  destruct (find_openapi_urls _ base_url) as [openapi_urls|msg]; [| apply Hone].
  destruct (discover_specs openapi_urls base_url depth st1) as [specs st2] eqn:Hd.
  destruct (discover_specs_quiet _ _ _ _ _ _ Hd) as (evs2 & Hq2).
  assert (Htwo : ∀ r0, (r0, st2) = (r, st') →
            ∃ evs, quiet [MainFetch; SpecFetch; ProbeFetch] st st' evs
                   ∧ sublist (fetches MainFetch evs) [main_request url]).
  { intros r0 [= <- <-]. eexists. split.
    - eapply quiet_trans; [exact Hq1|]. eapply quiet_mono; [|exact Hq2].
      intros s Hin. apply list_elem_of_further, Hin.
    - rewrite fetches_app, (quiet_no_fetches _ MainFetch _ _ _ Hq2).
      + simpl. reflexivity.
      + intros H. apply list_elem_of_In in H. simpl in H. intuition discriminate. }
  destruct (api_related_links_of _ base_url); apply Htwo.
Qed.

(** What the [try] block hands over: the page of [url] without child
    pages, its specs if any were recorded, and the links to explore, which
    are the first three recorded links other than [url]. *)
Lemma visit_page_result url depth max_depth st results relevant_links st' :
  visit_page url depth max_depth st = (Ok (results, relevant_links), st') →
  page_url results = url
  ∧ page_child_pages results = []
  ∧ relevant_links = relevant_links_of url depth max_depth (page_links results)
  ∧ (∀ l, page_openapi_specs results = Some l →
          l ≠ [] ∧ Forall (fun s => has_content s = true) l)
  ∧ (is_pdf url = true →
     page_links results = [] ∧ page_openapi_specs results = None
     ∧ relevant_links = []
     ∧ trace st' = trace st ++ [Fetch MainFetch (main_request url)]).
Proof.
  unfold visit_page. destruct (negb (truthy api_key)); [discriminate|].
  destruct (scrape MainFetch (main_request url) st) as [out st1] eqn:Hs.
  destruct (scrape_spec _ _ _ _ _ Hs) as (_ & _ & Ht).
  destruct out as [[data|]|msg]; try discriminate.
  destruct (base_url_of url) as [base_url|msg]; [|discriminate].
  destruct (is_pdf url) eqn:Hpdf.
  - intros [= <- <- <-]. cbn [page_url page_child_pages page_links page_openapi_specs].
    repeat split; try discriminate.
    + unfold relevant_links_of. rewrite bool_decide_eq_true_2 by reflexivity.
      rewrite andb_false_r. reflexivity.
    + exact Ht.
  - destruct (find_openapi_urls _ base_url) as [openapi_urls|msg]; [|discriminate].
    destruct (discover_specs openapi_urls base_url depth st1) as [specs st2] eqn:Hd.
    destruct (discover_specs_spec _ _ _ _ _ _ Hd) as (_ & _ & Hspecs).
    destruct (api_related_links_of _ base_url) as [api_related_links|msg]; [|discriminate].
    intros [= <- <- <-]. cbn [page_url page_child_pages page_links page_openapi_specs].
    repeat split; try discriminate; apply Hspecs; assumption.
Qed.

(** The [except] block: a second attempt exactly when the URL is a PDF
    and the message speaks of a timeout or an internal server error. *)
Lemma handle_failure_spec url msg st r st' :
  handle_failure url msg st = (r, st') →
  if retries url msg then
    ∃ out, scrape_url (retry_request url) (world st) = (out, world st')
      ∧ visited_urls st' = visited_urls st
      ∧ trace st' = trace st ++ [Fetch RetryFetch (retry_request url)]
      ∧ r = match out with
            | Ok (Some retry_data) => Some (retry_page url retry_data)
            | _ => None
            end
  else r = None ∧ st' = st.
Proof.
  unfold handle_failure. fold (retries url msg). destruct (retries url msg).
  - destruct (scrape RetryFetch (retry_request url) st) as [out st1] eqn:Hs.
    destruct (scrape_spec _ _ _ _ _ Hs) as (Hw & Hv & Ht).
    intros H. exists out.
    destruct out as [[d|]|m]; injection H as <- <-; auto.
  - intros [= <- <-]. auto.
Qed.

Lemma handle_failure_quiet url msg st r st' :
  handle_failure url msg st = (r, st') →
  ∃ evs, quiet [RetryFetch] st st' evs.
Proof.
  intros H%handle_failure_spec. destruct (retries url msg).
  - destruct H as (out & _ & Hv & Ht & _). exists [Fetch RetryFetch (retry_request url)].
    repeat split; [exact Ht | exact Hv |]. repeat constructor.
  - destruct H as [_ ->]. exists []. apply quiet_refl.
Qed.

Lemma handle_failure_page url msg st p st' :
  handle_failure url msg st = (Some p, st') →
  is_pdf url = true ∧ ∃ retry_data, p = retry_page url retry_data.
Proof.
  intros H%handle_failure_spec. unfold retries in H.
  destruct (is_pdf url); simpl in H.
  - destruct (_ || _).
    + destruct H as ([[d|]|m] & _ & _ & _ & [=]). subst p. eauto.
    + destruct H as [[=] _].
  - destruct H as [[=] _].
Qed.

(** ** The crawl invariant *)

(* [set_solver] clears hypotheses by name and warns when one is absent. *)
Local Set Warnings "-clear-no-such-hyp".

Lemma extract_site_content_step fuel url depth max_depth st :
  extract_site_content (S fuel) url depth max_depth st =
  if (depth >? max_depth) || bool_decide (url ∈ visited_urls st)
  then Some (None, st)
  else
    match visit_page url depth max_depth (mark_visited url depth st) with
    | (Ok (results, relevant_links), st1) =>
        '(pages, st2) ←
          explore (fun child_url =>
                     extract_site_content fuel child_url (depth + 1) max_depth)
                  relevant_links st1;
        Some (Some (with_child_pages results pages), st2)
    | (Raise msg, st1) => Some (handle_failure url msg st1)
    end.
Proof. reflexivity. Qed.

Lemma main_request_url url : Firecrawl.url (main_request url) = url.
Proof. unfold main_request. destruct (is_pdf url); reflexivity. Qed.

Lemma crawl_inv_refl st : crawl_inv st st [].
Proof.
  unfold crawl_inv, extends. rewrite List.app_nil_r. simpl.
  repeat split; [set_solver | constructor | intros u Hu; inversion Hu | constructor].
Qed.

Lemma crawl_inv_quiet sites st st' evs :
  quiet sites st st' evs → MainFetch ∉ sites → crawl_inv st st' evs.
Proof.
  intros Hq Hs. pose proof (quiet_visits _ _ _ _ Hq) as Hv.
  pose proof (quiet_no_fetches _ _ _ _ _ Hq Hs) as Hf.
  destruct Hq as (Ht & Hvis & _). unfold crawl_inv. rewrite Hv, Hf, Hvis. simpl.
  repeat split; [exact Ht | set_solver | constructor | intros u Hu; inversion Hu | constructor].
Qed.

Lemma crawl_inv_trans st st1 st2 evs1 evs2 :
  crawl_inv st st1 evs1 → crawl_inv st1 st2 evs2 →
  crawl_inv st st2 (evs1 ++ evs2).
Proof.
  unfold crawl_inv, extends.
  intros (Ht1 & Hv1 & Hn1 & Hf1 & Hs1) (Ht2 & Hv2 & Hn2 & Hf2 & Hs2).
  rewrite visits_app, fetches_app, fmap_app.
  split; [rewrite Ht2, Ht1, List.app_assoc; reflexivity|].
  split; [rewrite Hv2, Hv1, list_to_set_app_L; set_solver|].
  split.
  { apply NoDup_app. split; [exact Hn1|]. split; [|exact Hn2].
    intros u Hu1 Hu2. apply (Hf2 u Hu2). rewrite Hv1. set_solver. }
  split.
  { intros u [Hu|Hu]%elem_of_app; [exact (Hf1 u Hu)|].
    intros Hin. apply (Hf2 u Hu). rewrite Hv1. set_solver. }
  apply sublist_app; assumption.
Qed.

(** Entering a node: the URL becomes a crawl target, and whatever the
    [try] block fetches as its main request goes to that URL. *)
Lemma crawl_inv_enter url depth max_depth st r st' :
  url ∉ visited_urls st →
  visit_page url depth max_depth (mark_visited url depth st) = (r, st') →
  ∃ evs, crawl_inv st st' (Visit url depth :: evs)
         ∧ visits evs = []
         ∧ (0 < depth → fetches ProbeFetch evs = []).
Proof.
  intros Hnew Hv. destruct (visit_page_quiet _ _ _ _ _ _ Hv) as (evs & Hq & Hmain).
  exists evs. pose proof (quiet_visits _ _ _ _ Hq) as Hvis.
  split; [|split; [exact Hvis|]].
  - destruct Hq as (Ht & Hvu & _). unfold crawl_inv, extends.
    cbn [visits flat_map fetches]. fold (visits evs). fold (fetches MainFetch evs).
    rewrite Hvis. simpl app.
    split; [rewrite Ht; simpl; rewrite <- List.app_assoc; reflexivity|].
    split; [rewrite Hvu; simpl; set_solver|].
    split; [apply NoDup_singleton|].
    split; [intros u ->%list_elem_of_singleton; exact Hnew|].
    apply sublist_length in Hmain as Hlen.
    destruct (fetches MainFetch evs) as [|r1 [|r2 rs]];
      [apply sublist_nil_l| |simpl in Hlen; lia].
    apply sublist_cons_l in Hmain as (k1 & k2 & Hk & _).
    destruct k1 as [|? [|]]; simplify_eq/=. rewrite main_request_url. reflexivity.
  - intros Hd. unfold visit_page in Hv.
    destruct (negb (truthy api_key)).
    { injection Hv as <- <-. destruct Hq as (Ht & _ & _). unfold extends in Ht.
      apply (f_equal length) in Ht. rewrite length_app in Ht.
      destruct evs; [reflexivity | simpl in Ht; lia]. }
    clear Hmain Hvis.
    destruct (scrape MainFetch (main_request url) (mark_visited url depth st))
      as [out st1] eqn:Hs.
    destruct (scrape_spec _ _ _ _ _ Hs) as (_ & _ & Ht1).
    assert (Hone : ∀ r0, (r0, st1) = (r, st') → fetches ProbeFetch evs = []).
    { intros r0 [= <- <-]. destruct Hq as (Ht & _ & _). unfold extends in Ht.
      rewrite Ht1 in Ht. apply app_inv_head in Ht as <-. reflexivity. }
    destruct out as [[data|]|msg]; [| apply (Hone _ Hv)..].
    destruct (base_url_of url) as [base_url|msg]; [| apply (Hone _ Hv)].
    destruct (is_pdf url); [apply (Hone _ Hv)|].
    destruct (find_openapi_urls _ base_url) as [openapi_urls|msg]; [| apply (Hone _ Hv)].
    destruct (discover_specs openapi_urls base_url depth st1) as [specs st2] eqn:Hdisc.
    destruct (discover_specs_spec _ _ _ _ _ _ Hdisc) as (Ht2 & _ & _).
    assert ((depth =? 0) = false) as Hz by lia.
    rewrite Hz, andb_false_r in Ht2. simpl in Ht2. rewrite List.app_nil_r in Ht2.
    assert (st' = st2) as -> by (destruct (api_related_links_of _ base_url); congruence).
    destruct Hq as (Ht & _ & _). unfold extends in Ht.
    rewrite Ht2, Ht1, <- List.app_assoc in Ht. apply app_inv_head in Ht as <-.
    simpl. clear. induction (take 3 openapi_urls) as [|u l IH]; [reflexivity | exact IH].
Qed.

Lemma relevant_links_of_length url depth max_depth api_related_links :
  (length (relevant_links_of url depth max_depth api_related_links) ≤ 3)%nat.
Proof.
  unfold relevant_links_of. destruct (_ && _); simpl; [|lia].
  rewrite length_take. lia.
Qed.

Lemma relevant_links_of_deeper url depth max_depth api_related_links :
  relevant_links_of url depth max_depth api_related_links ≠ [] → depth < max_depth.
Proof.
  unfold relevant_links_of. destruct (depth <? max_depth) eqn:E; simpl; [lia | congruence].
Qed.

(** The loop over the child links keeps the invariant, given that each
    recursive call does. *)
Lemma explore_inv recur (B : nat) (Q : list Event → Prop) :
  Q [] → (∀ a b, Q a → Q b → Q (a ++ b)) →
  (∀ u st r st', recur u st = Some (r, st') →
     ∃ evs, crawl_inv st st' evs ∧ (length (visits evs) ≤ B)%nat ∧ Q evs) →
  ∀ relevant_links st pages st',
    explore recur relevant_links st = Some (pages, st') →
    ∃ evs, crawl_inv st st' evs
           ∧ (length (visits evs) ≤ length relevant_links * B)%nat ∧ Q evs.
Proof.
  intros Hnil Happ Hrec relevant_links.
  induction relevant_links as [|u links IH]; intros st pages st'; simpl.
  - intros [= <- <-]. exists []. split; [apply crawl_inv_refl|]. split; [simpl; lia | exact Hnil].
  - destruct (recur u st) as [[child st1]|] eqn:Hu; [|discriminate]. simpl.
    destruct (explore recur links st1) as [[pages' st2]|] eqn:He; [|discriminate]. simpl.
    intros [= <- <-].
    destruct (Hrec _ _ _ _ Hu) as (evs1 & Hc1 & Hl1 & Hq1).
    destruct (IH _ _ _ He) as (evs2 & Hc2 & Hl2 & Hq2).
    exists (evs1 ++ evs2). split; [eapply crawl_inv_trans; eassumption|].
    split; [rewrite visits_app, List.length_app; lia | auto].
Qed.

(** Every call keeps the crawl invariant, visits at most
    [fan_out_bound fuel] pages, and probes the common paths only from
    depth 0. *)
Lemma extract_site_content_inv fuel :
  ∀ url depth max_depth st r st',
    extract_site_content fuel url depth max_depth st = Some (r, st') →
    ∃ evs, crawl_inv st st' evs
           ∧ (length (visits evs) ≤ fan_out_bound fuel)%nat
           ∧ (0 < depth → fetches ProbeFetch evs = []).
Proof.
  induction fuel as [|fuel IH]; intros url depth max_depth st r st'; [discriminate|].
  rewrite extract_site_content_step.
  destruct ((depth >? max_depth) || bool_decide (url ∈ visited_urls st)) eqn:Hguard.
  { intros [= <- <-]. exists []. split; [apply crawl_inv_refl|]. split; [simpl; lia | reflexivity]. }
  apply orb_false_iff in Hguard as [_ Hnew]. apply bool_decide_eq_false in Hnew.
  destruct (visit_page url depth max_depth (mark_visited url depth st))
    as [[[results relevant_links]|msg] st1] eqn:Hv.
  - destruct (crawl_inv_enter _ _ _ _ _ _ Hnew Hv) as (evs0 & Hc0 & Hv0 & Hp0).
    destruct (visit_page_result _ _ _ _ _ _ _ Hv) as (_ & _ & Hlinks & _).
    destruct (explore _ relevant_links st1) as [[pages st2]|] eqn:He; [|discriminate].
    simpl. intros [= <- <-].
    assert (Hq_nil : 0 < depth + 1 → fetches ProbeFetch [] = []) by reflexivity.
    assert (Hq_app : ∀ a b,
              (0 < depth + 1 → fetches ProbeFetch a = []) →
              (0 < depth + 1 → fetches ProbeFetch b = []) →
              0 < depth + 1 → fetches ProbeFetch (a ++ b) = []).
    { intros a b Ha Hb Hd. rewrite fetches_app, Ha, Hb by exact Hd. reflexivity. }
    destruct (explore_inv
                (fun child_url => extract_site_content fuel child_url (depth + 1) max_depth)
                (fan_out_bound fuel)
                (fun evs => 0 < depth + 1 → fetches ProbeFetch evs = [])
                Hq_nil Hq_app
                (fun u s r s' Hu => IH _ _ _ _ _ _ Hu)
                _ _ _ _ He) as (evs1 & Hc1 & Hl1 & Hq1).
    exists ((Visit url depth :: evs0) ++ evs1).
    split; [eapply crawl_inv_trans; eassumption|]. split.
    + rewrite visits_app, List.length_app. cbn [visits flat_map]. fold (visits evs0).
      rewrite Hv0. simpl length.
      pose proof (relevant_links_of_length url depth max_depth (page_links results)) as Hle.
      rewrite <- Hlinks in Hle. cbn [fan_out_bound]. nia.
    + intros Hd. rewrite fetches_app. cbn [fetches flat_map]. fold (fetches ProbeFetch evs0).
      rewrite (Hp0 Hd), Hq1 by lia. reflexivity.
  - destruct (crawl_inv_enter _ _ _ _ _ _ Hnew Hv) as (evs0 & Hc0 & Hv0 & Hp0).
    intros Hh. destruct (handle_failure url msg st1) as [r' st''] eqn:Hf.
    injection Hh as <- <-.
    destruct (handle_failure_quiet _ _ _ _ _ Hf) as (evs1 & Hq).
    assert (Hno : ∀ s, s ≠ RetryFetch → s ∉ [RetryFetch]).
    { intros s Hs ->%list_elem_of_singleton. congruence. }
    exists ((Visit url depth :: evs0) ++ evs1).
    split; [eapply crawl_inv_trans; [exact Hc0|]; eapply crawl_inv_quiet; [exact Hq|];
            apply Hno; discriminate|].
    split.
    + rewrite visits_app, List.length_app, (quiet_visits _ _ _ _ Hq).
      cbn [visits flat_map]. fold (visits evs0). rewrite Hv0. simpl. lia.
    + intros Hd. rewrite fetches_app. cbn [fetches flat_map]. fold (fetches ProbeFetch evs0).
      rewrite (Hp0 Hd), (quiet_no_fetches _ ProbeFetch _ _ _ Hq) by (apply Hno; discriminate).
      reflexivity.
Qed.

(** ** Termination: the fuel of [fuel_for] suffices *)

Lemma explore_total recur relevant_links st :
  (∀ u st, is_Some (recur u st)) → is_Some (explore recur relevant_links st).
Proof.
  intros Hrec. revert st. induction relevant_links as [|u links IH]; intros st; simpl.
  - eauto.
  - destruct (Hrec u st) as [[child st1] ->]. simpl.
    destruct (IH st1) as [[pages st2] ->]. simpl. eauto.
Qed.

Lemma extract_site_content_total fuel :
  ∀ url depth max_depth st,
    (Z.to_nat (max_depth - depth) < fuel)%nat →
    is_Some (extract_site_content fuel url depth max_depth st).
Proof.
  induction fuel as [|fuel IH]; intros url depth max_depth st Hfuel; [lia|].
  rewrite extract_site_content_step.
  destruct ((depth >? max_depth) || bool_decide (url ∈ visited_urls st)); [eauto|].
  destruct (visit_page url depth max_depth (mark_visited url depth st))
    as [[[results relevant_links]|msg] st1] eqn:Hv; [|eauto].
  destruct (visit_page_result _ _ _ _ _ _ _ Hv) as (_ & _ & Hlinks & _).
  assert (Hex : is_Some (explore (fun child_url =>
                   extract_site_content fuel child_url (depth + 1) max_depth)
                   relevant_links st1)).
  { destruct relevant_links as [|u links] eqn:E; [simpl; eauto|]. rewrite <- E.
    apply explore_total. intros child st0. apply IH.
    assert (depth < max_depth).
    { eapply relevant_links_of_deeper. rewrite <- Hlinks. discriminate. }
    lia. }
  destruct Hex as [[pages st2] ->]. simpl. eauto.
Qed.



(** ** The node of a PDF *)

Lemma visit_page_pdf url depth max_depth st r st' :
  is_pdf url = true →
  visit_page url depth max_depth st = (r, st') →
  (truthy api_key = false ∧ st' = st
   ∧ r = Raise "FIRECRAWL_API_KEY not found in environment variables.")
  ∨ (trace st' = trace st ++ [Fetch MainFetch (main_request url)]
     ∧ visited_urls st' = visited_urls st
     ∧ ∀ results relevant_links, r = Ok (results, relevant_links) →
         page_links results = [] ∧ page_openapi_specs results = None
         ∧ page_child_pages results = [] ∧ relevant_links = []).
Proof.
  intros Hpdf. unfold visit_page. destruct (truthy api_key); simpl negb; cbv iota.
  2:{ intros [= <- <-]. left. auto. }
  destruct (scrape MainFetch (main_request url) st) as [out st1] eqn:Hs.
  destruct (scrape_spec _ _ _ _ _ Hs) as (_ & Hv & Ht).
  intros H. right.
  assert (st' = st1 ∧ ∀ results relevant_links, r = Ok (results, relevant_links) →
            page_links results = [] ∧ page_openapi_specs results = None
            ∧ page_child_pages results = [] ∧ relevant_links = []) as [-> Hr].
  { destruct out as [[data|]|msg]; try (injection H as <- <-; split; [reflexivity | discriminate]).
    destruct (base_url_of url); try (injection H as <- <-; split; [reflexivity | discriminate]).
    rewrite Hpdf in H. injection H as <- <-. split; [reflexivity|].
    intros results links [= <- <-]. auto. }
  auto.
Qed.

(** ** Probing the common paths *)

Lemma fetches_other site site' reqs :
  site ≠ site' → fetches site' (map (Fetch site) reqs) = [].
Proof.
  intros Hne. induction reqs as [|r reqs IH]; [reflexivity|]. simpl.
  destruct (decide (site = site')); [contradiction | exact IH].
Qed.

Lemma fetches_same site reqs : fetches site (map (Fetch site) reqs) = reqs.
Proof.
  induction reqs as [|r reqs IH]; [reflexivity|]. simpl.
  destruct (decide (site = site)); [|contradiction]. simpl. rewrite IH. reflexivity.
Qed.

(** The probes of one node: none, unless the node is at depth 0, its page
    was fetched and the scan of its HTML found no spec URL; then the
    fourteen common paths are requested in order, whatever the answers. *)
Lemma visit_page_probes url depth max_depth st r st' evs :
  visit_page url depth max_depth st = (r, st') →
  trace st' = trace st ++ evs →
  fetches ProbeFetch evs = []
  ∨ (depth = 0 ∧ is_pdf url = false
     ∧ ∃ data base_url w1 outs,
         scrape_url (main_request url) (world st) = (Ok (Some data), w1)
         ∧ base_url_of url = Ok base_url
         ∧ find_openapi_urls (Firecrawl.html data) base_url = Ok []
         ∧ let urls := map (fun path => base_url +:+ path) common_paths in
           fetches ProbeFetch evs = map spec_request urls
           ∧ fetches SpecFetch evs = []
           ∧ scrape_all (map spec_request urls) w1 = (outs, world st')
           ∧ ∀ results relevant_links, r = Ok (results, relevant_links) →
               page_openapi_specs results =
                 match recorded urls outs with [] => None | l => Some l end).
Proof.
  unfold visit_page. destruct (negb (truthy api_key)).
  { intros [= <- <-] Ht. left.
    apply (f_equal length) in Ht. rewrite List.length_app in Ht.
    destruct evs; [reflexivity | simpl in Ht; lia]. }
  destruct (scrape MainFetch (main_request url) st) as [out st1] eqn:Hs.
  destruct (scrape_spec _ _ _ _ _ Hs) as (Hw1 & _ & Ht1).
  assert (Hone : ∀ r0, (r0, st1) = (r, st') → trace st' = trace st ++ evs →
                       fetches ProbeFetch evs = []).
  { intros r0 [= <- <-] Ht. rewrite Ht1 in Ht. apply app_inv_head in Ht as <-. reflexivity. }
  destruct out as [[data|]|msg]; [| left; eapply Hone; eassumption..].
  destruct (base_url_of url) as [base_url|msg] eqn:Hbase; [| left; eapply Hone; eassumption].
  destruct (is_pdf url); [left; eapply Hone; eassumption|].
  destruct (find_openapi_urls _ base_url) as [openapi_urls|msg] eqn:Hfind;
    [| left; eapply Hone; eassumption].
  destruct (discover_specs openapi_urls base_url depth st1) as [specs st2] eqn:Hd.
  intros Hr Ht.
  assert (st' = st2) as -> by (destruct (api_related_links_of _ base_url); congruence).
  destruct (discover_specs_spec _ _ _ _ _ _ Hd) as (Ht2 & _ & _).
  rewrite Ht2, Ht1, <- List.app_assoc in Ht. apply app_inv_head in Ht. subst evs.
  destruct (bool_decide (openapi_urls = []) && (depth =? 0)) eqn:Hgate.
  - right. apply andb_true_iff in Hgate as [Hnone Hz].
    apply bool_decide_eq_true in Hnone. subst openapi_urls.
    split; [lia|]. split; [reflexivity|].
    unfold discover_specs in Hd. simpl in Hd. rewrite Hz in Hd.
    unfold try_common_openapi_endpoints in Hd.
    destruct (probe_paths base_url common_paths st1) as [common st3] eqn:Hp.
    destruct (probe_paths_spec _ _ _ _ _ Hp) as (outs & Hall & -> & _ & _).
    assert (st3 = st2 ∧ specs = match recorded (map (fun path => base_url +:+ path)
                                                   common_paths) outs with
                                | [] => None | l => Some l end) as [-> ->].
    { destruct (recorded _ outs); injection Hd as <- <-; auto. }
    exists data, base_url, (world st1), outs.
    split; [exact Hw1|]. split; [reflexivity|]. split; [exact Hfind|].
    cbv zeta. split; [|split; [|split]].
    + rewrite !fetches_app, fetches_same. reflexivity.
    + rewrite !fetches_app, (fetches_other ProbeFetch SpecFetch) by discriminate.
      reflexivity.
    + exact Hall.
    + intros results links Hres.
      destruct (api_related_links_of _ base_url); [|congruence].
      injection Hr as <-. injection Hres as <- <-. reflexivity.
  - left. rewrite !fetches_app, (fetches_other SpecFetch ProbeFetch) by discriminate.
    reflexivity.
Qed.

(** ** The result tree *)

Lemma explore_pages recur (P : PageResult → Prop) :
  (∀ u st p st', recur u st = Some (Some p, st') → page_url p = u ∧ P p) →
  ∀ relevant_links st pages st',
    explore recur relevant_links st = Some (pages, st') →
    sublist (page_url <$> pages) relevant_links ∧ Forall P pages.
Proof.
  intros Hrec relevant_links.
  induction relevant_links as [|u links IH]; intros st pages st'; simpl.
  - intros [= <- <-]. split; constructor.
  - destruct (recur u st) as [[child st1]|] eqn:Hu; [|discriminate]. simpl.
    destruct (explore recur links st1) as [[pages' st2]|] eqn:He; [|discriminate]. simpl.
    intros [= <- <-]. destruct (IH _ _ _ He) as (Hsub & Hall).
    destruct child as [p|]; simpl.
    + destruct (Hrec _ _ _ _ Hu) as (<- & Hp). split; constructor; assumption.
    + split; [constructor|]; assumption.
Qed.

Lemma relevant_links_of_sublist url depth max_depth api_related_links :
  sublist (relevant_links_of url depth max_depth api_related_links)
    (take 3 (List.filter (fun link => negb (String.eqb link url)) api_related_links)).
Proof.
  unfold relevant_links_of. destruct (_ && _); [reflexivity | apply sublist_nil_l].
Qed.

(** Every page of the tree that a call returns carries the URL it was
    asked for, at most three child pages drawn from its first three
    relevant links, and specs with content if it has the key at all. *)
Lemma extract_site_content_pages fuel :
  ∀ url depth max_depth st p st',
    extract_site_content fuel url depth max_depth st = Some (Some p, st') →
    page_url p = url ∧ Forall fan_out_ok (pages_of p).
Proof.
  induction fuel as [|fuel IH]; intros url depth max_depth st p st'; [discriminate|].
  rewrite extract_site_content_step.
  destruct ((depth >? max_depth) || bool_decide (url ∈ visited_urls st)); [discriminate|].
  destruct (visit_page url depth max_depth (mark_visited url depth st))
    as [[[results relevant_links]|msg] st1] eqn:Hv.
  - destruct (visit_page_result _ _ _ _ _ _ _ Hv) as (Hurl & _ & Hlinks & _).
    destruct (explore _ relevant_links st1) as [[pages st2]|] eqn:He; [|discriminate].
    simpl. intros [= <- <-].
    destruct (explore_pages _ (fun c => Forall fan_out_ok (pages_of c))
                (fun u s c s' Hu => IH _ _ _ _ _ _ Hu) _ _ _ _ He) as (Hsub & Hall).
    split; [exact Hurl|]. cbn [pages_of with_child_pages page_child_pages].
    constructor.
    + unfold fan_out_ok. cbn [with_child_pages page_child_pages page_url page_links].
      rewrite Hurl. etrans; [exact Hsub|]. rewrite Hlinks.
      apply relevant_links_of_sublist.
    + apply Forall_forall. intros q Hq.
      apply list_elem_of_In, in_flat_map in Hq as (c & Hc & Hq).
      apply list_elem_of_In in Hc, Hq.
      rewrite Forall_forall in Hall. specialize (Hall c Hc).
      rewrite Forall_forall in Hall. exact (Hall q Hq).
  - intros [= Hh]. apply handle_failure_page in Hh as (_ & d & ->).
    split; [reflexivity|]. repeat constructor.
Qed.

(** ** The crawl driver: the claims *)


(** C2.  Every page of the result tree has at most three child pages,
    and they come from its first three relevant links other than its own
    URL; a call visits at most [fan_out_bound] pages, so at most four (the
    root and three children) when one level of recursion is allowed, however
    many relevant links the pages hold. *)
Theorem crawl_fan_out_cap url depth max_depth st r st' evs :
  extract_site_content (fuel_for depth max_depth) url depth max_depth st = Some (r, st') →
  trace st' = trace st ++ evs →
  (∀ p, r = Some p →
     Forall (fun q => fan_out_ok q ∧ (length (page_child_pages q) ≤ 3)%nat) (pages_of p))
  ∧ (length (fetches MainFetch evs) ≤ length (visits evs))%nat
  ∧ (length (visits evs) ≤ fan_out_bound (fuel_for depth max_depth))%nat
  ∧ (max_depth = depth + 1 →
     (length (visits evs) ≤ 4)%nat ∧ (length (fetches MainFetch evs) ≤ 4)%nat).
Proof.
  intros Hrun Ht.
  destruct (extract_site_content_inv _ _ _ _ _ _ _ Hrun) as (evs' & Hinv & Hbound & _).
  destruct Hinv as (Ht' & _ & _ & _ & Hsub).
  unfold extends in Ht'. rewrite Ht in Ht'. apply app_inv_head in Ht'. subst evs'.
  apply sublist_length in Hsub. rewrite length_fmap in Hsub.
  split; [|split; [exact Hsub|split; [exact Hbound|]]].
  - intros p ->. destruct (extract_site_content_pages _ _ _ _ _ _ _ Hrun) as (_ & Hall).
    eapply Forall_impl; [exact Hall|]. intros q Hq. split; [exact Hq|].
    unfold fan_out_ok in Hq. apply sublist_length in Hq.
    rewrite length_fmap, length_take in Hq. lia.
  - intros ->. unfold fuel_for in Hbound.
    replace (depth + 1 - depth) with 1 in Hbound by lia.
    change (fan_out_bound (S (Z.to_nat 1))) with 4%nat in Hbound. lia.
Qed.

(** C3.  When the main fetch of a node raises, the node returns the empty
    result without another request, unless the URL is a PDF and the message
    holds "timeout" or "internal server error" in any case: then one second
    attempt is made, for markdown only with a 60 s timeout and a 1 s wait,
    and the node returns its page, or the empty result when the second
    attempt raises or answers nothing. *)
Theorem main_fetch_failure fuel url depth max_depth st msg w1 :
  truthy api_key = true →
  depth ≤ max_depth →
  url ∉ visited_urls st →
  scrape_url (main_request url) (world st) = (Raise msg, w1) →
  let st1 :=
    mkState w1 ({[url]} ∪ visited_urls st)
      (trace st ++ [Visit url depth; Fetch MainFetch (main_request url)]) in
  retry_request url = Firecrawl.mkRequest url [Firecrawl.Markdown] (Some 60000) (Some 1000)
  ∧ extract_site_content (S fuel) url depth max_depth st =
      if is_pdf url
         && (contains "timeout" (lower msg)
             || contains "internal server error" (lower msg))
      then
        let '(out, w2) := scrape_url (retry_request url) w1 in
        Some (match out with
              | Ok (Some retry_data) => Some (retry_page url retry_data)
              | _ => None
              end,
              mkState w2 (visited_urls st1)
                (trace st1 ++ [Fetch RetryFetch (retry_request url)]))
      else Some (None, st1).
Proof.
  intros Hkey Hdepth Hnew Hfetch st1. split; [reflexivity|].
  rewrite extract_site_content_step.
  assert ((depth >? max_depth) = false) as -> by lia.
  rewrite bool_decide_eq_false_2 by exact Hnew. cbn [orb].
  unfold visit_page. rewrite Hkey. cbn [negb].
  unfold scrape at 1, mark_visited. cbn [world]. rewrite Hfetch.
  cbn [visited_urls trace]. rewrite <- List.app_assoc. cbn [app]. fold st1.
  unfold handle_failure.
  destruct (is_pdf url && _); [|reflexivity].
  unfold scrape. change (world st1) with w1.
  destruct (scrape_url (retry_request url) w1) as [out w2].
  destruct out as [[d|]|m]; reflexivity.
Qed.

(** C7.  The page returned for a PDF, on the normal path and after a
    second attempt alike, has no links, no [openapi_specs] key and no child
    pages; the node issued its main request, possibly the second attempt,
    and nothing else. *)
Theorem pdf_pages_are_leaves fuel url depth max_depth st p st' :
  is_pdf url = true →
  extract_site_content fuel url depth max_depth st = Some (Some p, st') →
  page_links p = [] ∧ page_openapi_specs p = None ∧ page_child_pages p = []
  ∧ (trace st' = trace st ++ [Visit url depth; Fetch MainFetch (main_request url)]
     ∨ trace st' = trace st ++ [Visit url depth; Fetch MainFetch (main_request url);
                                Fetch RetryFetch (retry_request url)]).
Proof.
  intros Hpdf. destruct fuel as [|fuel]; [discriminate|].
  rewrite extract_site_content_step.
  destruct ((depth >? max_depth) || bool_decide (url ∈ visited_urls st)); [discriminate|].
  destruct (visit_page url depth max_depth (mark_visited url depth st))
    as [r st1] eqn:Hv.
  destruct (visit_page_pdf _ _ _ _ _ _ Hpdf Hv) as [(_ & -> & ->) | (Ht & _ & Hr)].
  { intros [= Hh]. apply handle_failure_spec in Hh. unfold retries in Hh.
    rewrite Hpdf in Hh. vm_compute in Hh. destruct Hh as [[=] _]. }
  cbn [trace mark_visited] in Ht. rewrite <- List.app_assoc in Ht. cbn [app] in Ht.
  destruct r as [[results relevant_links]|msg].
  - destruct (Hr _ _ eq_refl) as (Hl & Hs & Hc & ->). simpl.
    intros [= <- <-]. cbn [with_child_pages page_links page_openapi_specs page_child_pages].
    auto.
  - intros [= Hh]. pose proof (handle_failure_page _ _ _ _ _ Hh) as (_ & d & ->).
    apply handle_failure_spec in Hh. destruct (retries url msg).
    + destruct Hh as (out & _ & _ & Ht' & _). rewrite Ht', Ht, <- List.app_assoc.
      cbn [retry_page page_links page_openapi_specs page_child_pages app]. auto.
    + destruct Hh as [[=] _].
Qed.

(** C10.  A page that a call returns carries the URL the call was asked
    to visit; its [openapi_specs] key, when present, holds at least one
    candidate, and every candidate was recorded with non-empty markdown or
    HTML.  (The keys [url], [content], [links] and [child_pages] are the
    fields of [PageResult]: each page is built with all four.) *)
Theorem page_result_shape fuel url depth max_depth st p st' :
  extract_site_content fuel url depth max_depth st = Some (Some p, st') →
  page_url p = url
  ∧ ∀ l, page_openapi_specs p = Some l →
         l ≠ [] ∧ Forall (fun s => has_content s = true) l.
Proof.
  destruct fuel as [|fuel]; [discriminate|].
  rewrite extract_site_content_step.
  destruct ((depth >? max_depth) || bool_decide (url ∈ visited_urls st)); [discriminate|].
  destruct (visit_page url depth max_depth (mark_visited url depth st))
    as [[[results relevant_links]|msg] st1] eqn:Hv.
  - destruct (visit_page_result _ _ _ _ _ _ _ Hv) as (Hurl & _ & _ & Hspecs & _).
    destruct (explore _ relevant_links st1) as [[pages st2]|]; [|discriminate].
    simpl. intros [= <- <-]. split; [exact Hurl | exact Hspecs].
  - intros [= Hh]. apply handle_failure_page in Hh as (_ & d & ->).
    split; [reflexivity | discriminate].
Qed.

Lemma spec_of_is_Some u out :
  is_Some (spec_of u out) ↔
  ∃ spec_data, out = Ok (Some spec_data)
    ∧ truthy (Firecrawl.markdown spec_data) || truthy (Firecrawl.html spec_data) = true.
Proof.
  unfold spec_of. split.
  - intros [s Hs]. destruct out as [[d|]|]; try discriminate.
    destruct (truthy _ || truthy _) eqn:E; [eauto | discriminate].
  - intros (d & -> & ->). eauto.
Qed.

Lemma scrape_all_length requests w outs w' :
  scrape_all requests w = (outs, w') → length outs = length requests.
Proof.
  revert w outs w'. induction requests as [|q reqs IH]; intros w outs w'; simpl.
  - intros [= <- <-]. reflexivity.
  - destruct (scrape_url q w) as [out w1].
    destruct (scrape_all reqs w1) as [outs' w2] eqn:Hall.
    intros [= <- <-]. simpl. rewrite (IH _ _ _ Hall). reflexivity.
Qed.

(** C8.  [try_common_openapi_endpoints] requests the fourteen common
    paths appended to the base URL, in order and whatever the answers; it
    records a candidate for exactly the requests answered with non-empty
    markdown or HTML.  A node probes only at depth 0 and after a scan of its
    HTML that found no spec URL, and a call at a greater depth never probes. *)
Theorem probing_common_paths :
  length common_paths = 14%nat
  ∧ (∀ base_url st specs st',
       try_common_openapi_endpoints base_url st = (specs, st') →
       let urls := map (fun path => base_url +:+ path) common_paths in
       ∃ outs,
         scrape_all (map spec_request urls) (world st) = (outs, world st')
         ∧ length outs = 14%nat
         ∧ specs = recorded urls outs
         ∧ trace st' = trace st ++ map (Fetch ProbeFetch) (map spec_request urls))
  ∧ (∀ u out,
       is_Some (spec_of u out) ↔
       ∃ spec_data, out = Ok (Some spec_data)
         ∧ truthy (Firecrawl.markdown spec_data) || truthy (Firecrawl.html spec_data) = true)
  ∧ (∀ url depth max_depth st r st' evs,
       visit_page url depth max_depth st = (r, st') →
       trace st' = trace st ++ evs →
       fetches ProbeFetch evs ≠ [] →
       depth = 0
       ∧ ∃ data base_url w1,
           scrape_url (main_request url) (world st) = (Ok (Some data), w1)
           ∧ base_url_of url = Ok base_url
           ∧ find_openapi_urls (Firecrawl.html data) base_url = Ok []
           ∧ fetches ProbeFetch evs
             = map spec_request (map (fun path => base_url +:+ path) common_paths))
  ∧ (∀ fuel url depth max_depth st r st' evs,
       extract_site_content fuel url depth max_depth st = Some (r, st') →
       trace st' = trace st ++ evs →
       0 < depth → fetches ProbeFetch evs = []).
Proof.
  split; [reflexivity|]. split; [|split; [exact spec_of_is_Some|split]].
  - intros base_url st specs st' Hp. unfold try_common_openapi_endpoints in Hp.
    destruct (probe_paths_spec _ _ _ _ _ Hp) as (outs & Hall & Hs & _ & Ht).
    exists outs. repeat split; try assumption.
    apply scrape_all_length in Hall. rewrite Hall, !length_map. reflexivity.
  - intros url depth max_depth st r st' evs Hv Ht Hne.
    destruct (visit_page_probes _ _ _ _ _ _ _ Hv Ht)
      as [Hnone | (Hd & _ & data & base_url & w1 & outs & Hm & Hb & Hf & Hp & _)];
      [contradiction|].
    split; [exact Hd|]. exists data, base_url, w1. auto.
  - intros fuel url depth max_depth st r st' evs Hrun Ht Hd.
    destruct (extract_site_content_inv _ _ _ _ _ _ _ Hrun) as (evs' & Hinv & _ & Hp).
    destruct Hinv as (Ht' & _). unfold extends in Ht'.
    rewrite Ht in Ht'. apply app_inv_head in Ht'. subst evs'. exact (Hp Hd).
Qed.

(** ** The scan for embedded specs *)


Lemma eqb_length (a b : string) :
  String.eqb a b = true → String.length a = String.length b.
Proof. intros ->%String.eqb_eq. reflexivity. Qed.

(** A suffix no longer than [b] is a suffix of [a ++ b] exactly when it is
    one of [b]. *)
Lemma endswith_app_short (suf a b : string) :
  (String.length suf ≤ String.length b)%nat →
  endswith suf (a +:+ b) = endswith suf b.
Proof.
  intros Hlen. induction a as [|c a IH]; [reflexivity|].
  rewrite sapp_cons. cbn [endswith]. rewrite IH.
  destruct (String.eqb suf (String c (a +:+ b))) eqn:E; [|reflexivity].
  apply eqb_length in E. simpl in E. rewrite slength_app in E. lia.
Qed.






Lemma collect_elem {A : Type} (f : A → res (list string)) (l : list A) ys :
  collect f l = Ok ys →
  ∀ y, In y ys ↔ ∃ x zs, In x l ∧ f x = Ok zs ∧ In y zs.
Proof.
  revert ys. induction l as [|x l IH]; intros ys; simpl.
  - intros [= <-] y. split; [intros [] | intros (x & zs & [] & _)].
  - intros H. apply bind_Ok_inv in H as (zs & Hx & H).
    apply bind_Ok_inv in H as (ws & Hl & H). injection H as <-.
    intros y. rewrite in_app_iff, (IH _ Hl y). split.
    + intros [Hy | (x' & zs' & Hin & Hf & Hy)]; [exists x, zs | exists x', zs']; auto.
    + intros (x' & zs' & [<- | Hin] & Hf & Hy).
      * left. congruence.
      * right. eauto.
Qed.



(** * Further properties *)

(** ** [clean_url] *)

Lemma scheme_char_path_char : ∀ c, Urllib.scheme_char c = true → path_char c = true.
Proof. by_chars. Qed.

Lemma is_scheme_path_chars (sch : string) :
  is_scheme sch = true → all_chars path_char sch = true.
Proof.
  intros (c0 & sch' & -> & _ & Hall & _)%is_scheme_inv.
  revert Hall. apply all_chars_impl, scheme_char_path_char.
Qed.

(** The string that [clean_url] builds before it looks at the trailing
    slash is made of path characters only. *)
Lemma clean_url_path_chars U V :
  clean_url U = Ok V → all_chars path_char V = true.
Proof.
  unfold clean_url. intros HU. apply bind_Ok_inv in HU as (p & Hp & HV).
  cbv zeta in HV. injection HV as HV.
  destruct (urlparse_shape _ _ Hp) as (Hsch & HX).
  assert (HC : all_chars path_char
                 (Urllib.scheme p +:+ "://" +:+ Urllib.netloc p +:+ Urllib.path p) = true).
  { rewrite all_chars_app, all_chars_app, HX, andb_true_r.
    destruct Hsch as [-> | Hsch]; [reflexivity|].
    rewrite (is_scheme_path_chars _ Hsch). reflexivity. }
  destruct (_ && _) in HV; subst V; [apply all_chars_drop_last|]; exact HC.
Qed.

(** X1.  A cleaned URL holds no query mark, no fragment mark, and none of
    the tab, carriage return and line feed characters. *)
Theorem clean_url_drops_query_and_fragment U V :
  clean_url U = Ok V →
  has_char "?" V = false ∧ has_char "#" V = false
  ∧ all_chars (fun c => negb (Urllib.unsafe c)) V = true.
Proof.
  intros H%clean_url_path_chars. apply path_char_iff in H. tauto.
Qed.

(** *** URLs without brackets *)






(** *** Markdown links *)

Lemma md_sub_from_skip (s : string) (skip : nat) :
  (String.length s ≤ skip)%nat → md_sub_from skip s = "".
Proof.
  revert skip. induction s as [|c s IH]; intros skip Hlen; [reflexivity|].
  simpl in Hlen. destruct skip as [|k]; [lia|]. simpl. apply IH. lia.
Qed.

Lemma md_sub_link (text target : string) :
  text ≠ "" → has_char "]" text = false →
  target ≠ "" → has_char ")" target = false →
  md_sub ("[" +:+ text +:+ "](" +:+ target +:+ ")") = target.
Proof.
  intros Htext Hfree Htarget Hfree'.
  assert (Hb1 : break_at (Ascii.eqb "]") (text +:+ "](" +:+ target +:+ ")")
                = (text, "](" +:+ target +:+ ")")).
  { apply break_at_app; [|reflexivity].
    apply has_char_false in Hfree. revert Hfree. apply all_chars_impl.
    intros a Ha. rewrite Ascii.eqb_sym. exact Ha. }
  assert (Hb2 : break_at (Ascii.eqb ")") (target +:+ ")") = (target, ")")).
  { apply break_at_app; [|reflexivity].
    apply has_char_false in Hfree'. revert Hfree'. apply all_chars_impl.
    intros a Ha. rewrite Ascii.eqb_sym. exact Ha. }
  unfold md_sub.
  change ("[" +:+ text +:+ "](" +:+ target +:+ ")")
    with (String "[" (text +:+ "](" +:+ target +:+ ")")).
  cbn [md_sub_from]. unfold md_link_at. rewrite Hb1.
  destruct text as [|t text']; [contradiction|].
  change ("](" +:+ target +:+ ")") with (String "]" (String "(" (target +:+ ")"))).
  cbv beta iota. rewrite Hb2.
  destruct target as [|g target']; [contradiction|].
  cbv beta iota. rewrite md_sub_from_skip; [apply sapp_nil_r|].
  rewrite !slength_app. simpl. rewrite !slength_app. simpl. lia.
Qed.

(** X3.  A markdown link is cleaned like its target: for a non-empty text
    without a closing bracket and a non-empty target without a parenthesis
    to close it early and without an opening bracket,
    [clean_url("[text](target)")] is [clean_url(target)]. *)
Theorem clean_url_markdown_link text target :
  text ≠ "" → has_char "]" text = false →
  target ≠ "" → has_char ")" target = false → has_char "[" target = false →
  clean_url ("[" +:+ text +:+ "](" +:+ target +:+ ")") = clean_url target.
Proof.
  intros Htext Hfree Htarget Hfree' Hopen. unfold clean_url.
  rewrite md_sub_link by assumption.
  unfold md_sub. rewrite (md_sub_from_id _ Hopen). reflexivity.
Qed.

(** ** [is_api_related_link] *)


(** ** The crawl driver *)

Lemma requests_app evs1 evs2 : requests (evs1 ++ evs2) = requests evs1 ++ requests evs2.
Proof. apply flat_map_app. Qed.

Lemma visit_depths_app evs1 evs2 :
  visit_depths (evs1 ++ evs2) = visit_depths evs1 ++ visit_depths evs2.
Proof. apply flat_map_app. Qed.

Lemma requests_map site reqs : requests (map (Fetch site) reqs) = reqs.
Proof. induction reqs as [|r reqs IH]; [reflexivity|]. simpl. rewrite IH. reflexivity. Qed.

Lemma quiet_visit_depths sites st st' evs : quiet sites st st' evs → visit_depths evs = [].
Proof.
  intros (_ & _ & He). induction He as [|e evs He _ IH]; [reflexivity|].
  simpl. destruct e; [contradiction | exact IH].
Qed.

Lemma extends_refl st : extends st st [].
Proof. unfold extends. rewrite List.app_nil_r. reflexivity. Qed.

Lemma extends_trans st st1 st2 evs1 evs2 :
  extends st st1 evs1 → extends st1 st2 evs2 → extends st st2 (evs1 ++ evs2).
Proof. unfold extends. intros H1 H2. rewrite H2, H1, List.app_assoc. reflexivity. Qed.

Lemma extends_inj st st' evs evs' :
  extends st st' evs → trace st' = trace st ++ evs' → evs = evs'.
Proof. unfold extends. intros H1 H2. rewrite H2 in H1. apply app_inv_head in H1. auto. Qed.

Lemma extends_mark_visited url depth st st' evs :
  extends (mark_visited url depth st) st' evs → extends st st' (Visit url depth :: evs).
Proof.
  unfold extends. cbn [mark_visited trace]. intros ->.
  rewrite <- List.app_assoc. reflexivity.
Qed.

(** The loop over the child links, for a property of the events that
    holds of no events and of two stretches put together. *)
Lemma explore_events recur (Q : list Event → Prop) :
  Q [] → (∀ a b, Q a → Q b → Q (a ++ b)) →
  (∀ u st r st', recur u st = Some (r, st') → ∃ evs, extends st st' evs ∧ Q evs) →
  ∀ relevant_links st pages st',
    explore recur relevant_links st = Some (pages, st') →
    ∃ evs, extends st st' evs ∧ Q evs.
Proof.
  intros Hnil Happ Hrec relevant_links.
  induction relevant_links as [|u links IH]; intros st pages st'; simpl.
  - intros [= <- <-]. exists []. split; [apply extends_refl | exact Hnil].
  - destruct (recur u st) as [[child st1]|] eqn:Hu; [|discriminate]. simpl.
    destruct (explore recur links st1) as [[pages' st2]|] eqn:He; [|discriminate]. simpl.
    intros [= <- <-].
    destruct (Hrec _ _ _ _ Hu) as (evs1 & Hc1 & Hq1).
    destruct (IH _ _ _ He) as (evs2 & Hc2 & Hq2).
    exists (evs1 ++ evs2). split; [eapply extends_trans; eassumption | auto].
Qed.

(** The two ways through a call: the guard, or a node. *)
Lemma extract_site_content_node fuel url depth max_depth st r st' :
  extract_site_content (S fuel) url depth max_depth st = Some (r, st') →
  ((depth > max_depth ∨ url ∈ visited_urls st) ∧ r = None ∧ st' = st)
  ∨ (depth ≤ max_depth ∧ (url ∉ visited_urls st)
     ∧ ∃ rv st1,
         visit_page url depth max_depth (mark_visited url depth st) = (rv, st1)
         ∧ match rv with
           | Ok (results, relevant_links) =>
               ∃ pages,
                 explore (fun child_url =>
                            extract_site_content fuel child_url (depth + 1) max_depth)
                         relevant_links st1 = Some (pages, st')
                 ∧ r = Some (with_child_pages results pages)
           | Raise msg => handle_failure url msg st1 = (r, st')
           end).
Proof.
  rewrite extract_site_content_step.
  destruct ((depth >? max_depth) || bool_decide (url ∈ visited_urls st)) eqn:Hguard.
  { intros [= <- <-]. left. split; [|auto].
    apply orb_true_iff in Hguard as [H | H%bool_decide_eq_true]; [left; lia | right; exact H]. }
  apply orb_false_iff in Hguard as [Hd Hnew]. apply bool_decide_eq_false in Hnew.
  intros H. right. split; [lia|]. split; [exact Hnew|].
  destruct (visit_page url depth max_depth (mark_visited url depth st))
    as [[[results relevant_links]|msg] st1].
  - eexists _, _. split; [reflexivity|].
    destruct (explore _ relevant_links st1) as [[pages st2]|] eqn:He; [|discriminate].
    simpl in H. injection H as <- <-. eauto.
  - eexists _, _. split; [reflexivity|].
    injection H as H. exact H.
Qed.

(** The message of the missing key starts no second attempt. *)
Lemma retries_missing_key url :
  retries url "FIRECRAWL_API_KEY not found in environment variables." = false.
Proof. unfold retries. apply andb_false_r. Qed.

(** X5.  Without an API key a node makes no request at all, not even the
    second attempt on a PDF: the call returns the empty result, and its URL
    stays marked as visited. *)
Theorem extract_site_content_without_key fuel url depth max_depth st :
  truthy api_key = false →
  depth ≤ max_depth → url ∉ visited_urls st →
  extract_site_content (S fuel) url depth max_depth st
  = Some (None, mkState (world st) ({[url]} ∪ visited_urls st)
                  (trace st ++ [Visit url depth])).
Proof.
  intros Hkey Hdepth Hnew. rewrite extract_site_content_step.
  assert ((depth >? max_depth) = false) as -> by lia.
  rewrite bool_decide_eq_false_2 by exact Hnew. cbn [orb].
  unfold visit_page. rewrite Hkey. cbn [negb].
  unfold handle_failure. fold (retries url "FIRECRAWL_API_KEY not found in environment variables.").
  rewrite retries_missing_key. reflexivity.
Qed.

(** The events of a node begin with its visit. *)
Lemma extract_site_content_enter fuel url depth max_depth st r st' :
  extract_site_content fuel url depth max_depth st = Some (r, st') →
  depth ≤ max_depth → url ∉ visited_urls st →
  ∃ evs, crawl_inv st st' (Visit url depth :: evs).
Proof.
  intros Hrun Hdepth Hnew.
  destruct (extract_site_content_inv _ _ _ _ _ _ _ Hrun) as (evs & Hinv & _).
  destruct fuel as [|fuel]; [discriminate|].
  apply extract_site_content_node in Hrun
    as [([?|?] & _) | (_ & _ & rv & st1 & Hv & Hrest)]; [lia | contradiction |].
  destruct (visit_page_quiet _ _ _ _ _ _ Hv) as (evs0 & (Ht0 & _) & _).
  apply extends_mark_visited in Ht0.
  assert (∃ evs1, extends st1 st' evs1) as (evs1 & Ht1).
  { destruct rv as [[results relevant_links]|msg].
    - destruct Hrest as (pages & He & _).
      destruct (explore_events _ (fun _ => True) I (fun _ _ _ _ => I)
                  (fun u s r0 s' Hu =>
                     match extract_site_content_inv _ _ _ _ _ _ _ Hu with
                     | ex_intro _ evs (conj Hc _) => ex_intro _ evs (conj (proj1 Hc) I)
                     end) _ _ _ _ He) as (evs1 & H1 & _).
      eauto.
    - destruct (handle_failure_quiet _ _ _ _ _ Hrest) as (evs1 & H1 & _). eauto. }
  pose proof (extends_trans _ _ _ _ _ Ht0 Ht1) as Ht.
  destruct Hinv as (Ht' & Hinv). rewrite (extends_inj _ _ _ _ Ht' Ht) in *.
  exists (evs0 ++ evs1). split; [exact Ht | exact Hinv].
Qed.

(** X6.  The visited set never shrinks over a call, and after a call at a
    depth within the bound it holds the URL of the call, whether the fetch
    succeeded or not.  A call that returns a page was made on a URL that
    was not visited before. *)
Theorem visited_urls_grow fuel url depth max_depth st r st' :
  extract_site_content fuel url depth max_depth st = Some (r, st') →
  visited_urls st ⊆ visited_urls st'
  ∧ (depth ≤ max_depth → url ∈ visited_urls st')
  ∧ (∀ p, r = Some p → depth ≤ max_depth ∧ url ∉ visited_urls st).
Proof.
  intros Hrun.
  destruct (extract_site_content_inv _ _ _ _ _ _ _ Hrun) as (evs & (_ & Hv & _) & _).
  split; [rewrite Hv; set_solver|].
  split.
  - intros Hdepth. destruct (decide (url ∈ visited_urls st)) as [Hin | Hnew].
    + rewrite Hv. set_solver.
    + destruct (extract_site_content_enter _ _ _ _ _ _ _ Hrun Hdepth Hnew)
        as (evs' & _ & Hv' & _).
      rewrite Hv'. cbn [visits flat_map app]. set_solver.
  - intros p ->. destruct fuel as [|fuel]; [discriminate|].
    apply extract_site_content_node in Hrun
      as [(_ & [=] & _) | (Hdepth & Hnew & _)]. auto.
Qed.

(** *** The depth bound *)

Lemma extract_site_content_depths fuel :
  ∀ url depth max_depth st r st',
    extract_site_content fuel url depth max_depth st = Some (r, st') →
    ∃ evs, extends st st' evs
           ∧ Forall (fun d => depth ≤ d ≤ max_depth) (visit_depths evs).
Proof.
  induction fuel as [|fuel IH]; intros url depth max_depth st r st' Hrun; [discriminate|].
  apply extract_site_content_node in Hrun
    as [(_ & _ & ->) | (Hdepth & _ & rv & st1 & Hv & Hrest)].
  { exists []. split; [apply extends_refl | constructor]. }
  destruct (visit_page_quiet _ _ _ _ _ _ Hv) as (evs0 & Hq0 & _).
  pose proof (quiet_visit_depths _ _ _ _ Hq0) as Hd0.
  destruct Hq0 as (Ht0%extends_mark_visited & _).
  assert (∃ evs1, extends st1 st' evs1
                  ∧ Forall (fun d => depth + 1 ≤ d ≤ max_depth) (visit_depths evs1))
    as (evs1 & Ht1 & Hd1).
  { destruct rv as [[results relevant_links]|msg].
    - destruct Hrest as (pages & He & _).
      apply (explore_events _
               (fun evs => Forall (fun d => depth + 1 ≤ d ≤ max_depth) (visit_depths evs)))
        in He; [exact He | constructor | |].
      + intros a b Ha Hb. rewrite visit_depths_app. apply Forall_app. auto.
      + intros u s r0 s' Hu. exact (IH _ _ _ _ _ _ Hu).
    - destruct (handle_failure_quiet _ _ _ _ _ Hrest) as (evs1 & Hq1).
      exists evs1. rewrite (quiet_visit_depths _ _ _ _ Hq1).
      split; [apply Hq1 | constructor]. }
  exists ((Visit url depth :: evs0) ++ evs1).
  split; [eapply extends_trans; eassumption|].
  rewrite visit_depths_app. cbn [visit_depths flat_map app]. fold (visit_depths evs0).
  rewrite Hd0. constructor; [lia|].
  eapply Forall_impl; [exact Hd1|]. simpl. intros d. lia.
Qed.

(** X7.  Every URL that a call makes a crawl target is visited at a depth
    between the depth of the call and the maximum depth. *)
Theorem visits_within_max_depth fuel url depth max_depth st r st' evs :
  extract_site_content fuel url depth max_depth st = Some (r, st') →
  trace st' = trace st ++ evs →
  Forall (fun d => depth ≤ d ≤ max_depth) (visit_depths evs).
Proof.
  intros (evs' & Ht' & Hd)%extract_site_content_depths Ht.
  rewrite <- (extends_inj _ _ _ _ Ht' Ht). exact Hd.
Qed.

(** *** The height of the result tree *)

Lemma height_unfold p :
  height p = S (fold_right (fun child acc => Nat.max (height child) acc) O
                  (page_child_pages p)).
Proof. destruct p. reflexivity. Qed.

Lemma height_children (B : nat) pages :
  Forall (fun c => (height c ≤ B)%nat) pages →
  (fold_right (fun child acc => Nat.max (height child) acc) O pages ≤ B)%nat.
Proof. induction 1 as [|c pages Hc _ IH]; simpl; lia. Qed.

Lemma extract_site_content_height fuel :
  ∀ url depth max_depth st p st',
    extract_site_content fuel url depth max_depth st = Some (Some p, st') →
    page_url p = url ∧ (height p ≤ S (Z.to_nat (max_depth - depth)))%nat.
Proof.
  induction fuel as [|fuel IH]; intros url depth max_depth st p st' Hrun; [discriminate|].
  apply extract_site_content_node in Hrun
    as [(_ & [=] & _) | (Hdepth & _ & rv & st1 & Hv & Hrest)].
  destruct rv as [[results relevant_links]|msg].
  - destruct Hrest as (pages & He & [= ->]).
    destruct (visit_page_result _ _ _ _ _ _ _ Hv) as (Hurl & _ & Hlinks & _).
    destruct (explore_pages _ (fun c => (height c ≤ S (Z.to_nat (max_depth - (depth + 1))))%nat)
                (fun u s c s' Hu => IH _ _ _ _ _ _ Hu) _ _ _ _ He) as (Hsub & Hall).
    split; [exact Hurl|].
    rewrite height_unfold. cbn [with_child_pages page_child_pages].
    destruct pages as [|c pages]; [simpl; lia|].
    assert (depth < max_depth).
    { eapply relevant_links_of_deeper. rewrite <- Hlinks. intros ->.
      apply sublist_nil_r in Hsub. discriminate Hsub. }
    apply height_children in Hall. lia.
  - apply handle_failure_page in Hrest as (_ & d & ->). split; [reflexivity|].
    simpl. lia.
Qed.

(** X8.  A result tree never has more levels than the depth bound leaves:
    the tree returned by a call at [depth] has at most
    [max_depth - depth + 1] levels. *)
Theorem result_tree_height fuel url depth max_depth st p st' :
  extract_site_content fuel url depth max_depth st = Some (Some p, st') →
  Z.of_nat (height p) ≤ max_depth - depth + 1.
Proof.
  intros Hrun. pose proof (visited_depth := extract_site_content_height _ _ _ _ _ _ _ Hrun).
  destruct visited_depth as (_ & Hh).
  destruct fuel as [|fuel]; [discriminate|].
  apply extract_site_content_node in Hrun as [(_ & [=] & _) | (Hdepth & _)]. lia.
Qed.

(** *** The pages of the result tree and the crawl targets *)

Lemma pages_of_option_list p : flat_map pages_of (option_list (Some p)) = pages_of p.
Proof. unfold option_list. simpl. apply List.app_nil_r. Qed.

Lemma pages_of_unfold p : pages_of p = p :: flat_map pages_of (page_child_pages p).
Proof. destruct p. reflexivity. Qed.

Lemma explore_tree recur :
  (∀ u st r st', recur u st = Some (r, st') →
     ∃ evs, extends st st' evs
            ∧ sublist (page_url <$> flat_map pages_of (option_list r)) (visits evs)) →
  ∀ relevant_links st pages st',
    explore recur relevant_links st = Some (pages, st') →
    ∃ evs, extends st st' evs
           ∧ sublist (page_url <$> flat_map pages_of pages) (visits evs).
Proof.
  intros Hrec relevant_links.
  induction relevant_links as [|u links IH]; intros st pages st'; simpl.
  - intros [= <- <-]. exists []. split; [apply extends_refl | constructor].
  - destruct (recur u st) as [[child st1]|] eqn:Hu; [|discriminate]. simpl.
    destruct (explore recur links st1) as [[pages' st2]|] eqn:He; [|discriminate]. simpl.
    intros [= <- <-].
    destruct (Hrec _ _ _ _ Hu) as (evs1 & Hc1 & Hs1).
    destruct (IH _ _ _ He) as (evs2 & Hc2 & Hs2).
    exists (evs1 ++ evs2). split; [eapply extends_trans; eassumption|].
    rewrite flat_map_app, fmap_app, visits_app. apply sublist_app; assumption.
Qed.

Lemma extract_site_content_tree fuel :
  ∀ url depth max_depth st r st',
    extract_site_content fuel url depth max_depth st = Some (r, st') →
    ∃ evs, extends st st' evs
           ∧ sublist (page_url <$> flat_map pages_of (option_list r)) (visits evs).
Proof.
  induction fuel as [|fuel IH]; intros url depth max_depth st r st' Hrun; [discriminate|].
  apply extract_site_content_node in Hrun
    as [(_ & -> & ->) | (Hdepth & _ & rv & st1 & Hv & Hrest)].
  { exists []. split; [apply extends_refl | constructor]. }
  destruct (visit_page_quiet _ _ _ _ _ _ Hv) as (evs0 & Hq0 & _).
  pose proof (quiet_visits _ _ _ _ Hq0) as Hv0.
  destruct Hq0 as (Ht0%extends_mark_visited & _).
  destruct rv as [[results relevant_links]|msg].
  - destruct Hrest as (pages & He & ->).
    destruct (visit_page_result _ _ _ _ _ _ _ Hv) as (Hurl & _).
    destruct (explore_tree _ (fun u s r0 s' Hu => IH _ _ _ _ _ _ Hu) _ _ _ _ He)
      as (evs1 & Ht1 & Hs1).
    exists ((Visit url depth :: evs0) ++ evs1).
    split; [eapply extends_trans; eassumption|].
    rewrite visits_app. cbn [visits flat_map app]. fold (visits evs0). rewrite Hv0.
    rewrite pages_of_option_list, pages_of_unfold, fmap_cons.
    cbn [with_child_pages page_child_pages page_url]. rewrite Hurl.
    constructor. exact Hs1.
  - destruct (handle_failure_quiet _ _ _ _ _ Hrest) as (evs1 & Hq1).
    exists ((Visit url depth :: evs0) ++ evs1).
    split; [eapply extends_trans; [exact Ht0 | apply Hq1]|].
    rewrite visits_app, (quiet_visits _ _ _ _ Hq1), List.app_nil_r.
    cbn [visits flat_map app]. fold (visits evs0). rewrite Hv0.
    destruct r as [p|]; [|apply sublist_nil_l].
    apply handle_failure_page in Hrest as (_ & d & ->).
    rewrite pages_of_option_list. reflexivity.
Qed.

(** X9.  The URLs of the pages of a result tree, read root first, are
    among the crawl targets of the call in the order of their visits; so
    no URL occurs on two pages of the tree. *)
Theorem result_tree_urls_visited fuel url depth max_depth st p st' evs :
  extract_site_content fuel url depth max_depth st = Some (Some p, st') →
  trace st' = trace st ++ evs →
  sublist (page_url <$> pages_of p) (visits evs)
  ∧ NoDup (page_url <$> pages_of p).
Proof.
  intros Hrun Ht.
  destruct (extract_site_content_tree _ _ _ _ _ _ _ Hrun) as (evs' & Ht' & Hsub).
  rewrite (extends_inj _ _ _ _ Ht' Ht) in Hsub.
  rewrite pages_of_option_list in Hsub.
  split; [exact Hsub|].
  destruct (extract_site_content_inv _ _ _ _ _ _ _ Hrun)
    as (evs'' & (Ht'' & _ & Hnd & _) & _).
  rewrite (extends_inj _ _ _ _ Ht'' Ht) in Hnd.
  eapply sublist_NoDup; eassumption.
Qed.

(** *** The number of requests *)

(** The requests of the [try] block of one node: the main request, then
    at most three spec fetches or, at depth 0, the fourteen probes. *)
Lemma visit_page_requests url depth max_depth st rv st' :
  visit_page url depth max_depth st = (rv, st') →
  ∃ evs, extends st st' evs
         ∧ visits evs = [] ∧ fetches RetryFetch evs = []
         ∧ (length (requests evs) ≤ (if (depth =? 0)%Z then 15 else 4))%nat
         ∧ (is_pdf url = true → (length (requests evs) ≤ 1)%nat).
Proof.
  intros Hv. destruct (visit_page_quiet _ _ _ _ _ _ Hv) as (evs & Hq & _).
  exists evs. split; [apply Hq|]. split; [exact (quiet_visits _ _ _ _ Hq)|].
  split.
  { apply (quiet_no_fetches _ _ _ _ _ Hq). intros H.
    apply list_elem_of_In in H. simpl in H. intuition discriminate. }
  destruct Hq as (Ht & _). revert Hv. unfold visit_page.
  destruct (negb (truthy api_key)).
  { intros [= <- <-]. rewrite (extends_inj _ _ _ _ Ht (eq_sym (List.app_nil_r _))).
    simpl. split; [destruct (depth =? 0)|]; lia. }
  destruct (scrape MainFetch (main_request url) st) as [out st1] eqn:Hs.
  destruct (scrape_spec _ _ _ _ _ Hs) as (_ & _ & Ht1).
  assert (Hone : ∀ r0, (r0, st1) = (rv, st') →
            (length (requests evs) ≤ (if (depth =? 0)%Z then 15 else 4))%nat
            ∧ (is_pdf url = true → (length (requests evs) ≤ 1)%nat)).
  { intros r0 [= <- <-]. rewrite (extends_inj _ _ _ _ Ht Ht1).
    simpl. split; [destruct (depth =? 0)|]; lia. }
  destruct out as [[data|]|msg]; [| apply Hone..].
  destruct (base_url_of url) as [base_url|msg]; [| apply Hone].
  destruct (is_pdf url); [apply Hone|].
  destruct (find_openapi_urls _ base_url) as [openapi_urls|msg]; [| apply Hone].
  destruct (discover_specs openapi_urls base_url depth st1) as [specs st2] eqn:Hd.
  destruct (discover_specs_spec _ _ _ _ _ _ Hd) as (Ht2 & _ & _).
  intros Hr. assert (st' = st2) as -> by (destruct (api_related_links_of _ base_url); congruence).
  rewrite Ht1, <- List.app_assoc in Ht2. rewrite (extends_inj _ _ _ _ Ht Ht2).
  split; [|discriminate].
  rewrite !requests_app, !requests_map, !List.length_app, !length_map. simpl length.
  destruct (bool_decide (openapi_urls = [])) eqn:Hnone.
  - apply bool_decide_eq_true in Hnone. subst openapi_urls. simpl.
    destruct (depth =? 0); simpl; lia.
  - rewrite length_take. cbn [andb length].
    destruct (depth =? 0); lia.
Qed.

Lemma extract_site_content_requests fuel :
  ∀ url depth max_depth st r st',
    0 ≤ depth →
    extract_site_content fuel url depth max_depth st = Some (r, st') →
    ∃ evs, extends st st' evs
           ∧ (length (requests evs)
              ≤ 4 * length (visits evs) + (if (depth =? 0)%Z then 11 else 0))%nat.
Proof.
  induction fuel as [|fuel IH]; intros url depth max_depth st r st' Hpos Hrun;
    [discriminate|].
  apply extract_site_content_node in Hrun
    as [(_ & _ & ->) | (Hdepth & _ & rv & st1 & Hv & Hrest)].
  { exists []. split; [apply extends_refl | simpl; lia]. }
  destruct (visit_page_requests _ _ _ _ _ _ Hv)
    as (evs0 & Ht0%extends_mark_visited & Hv0 & _ & Hlen0 & Hpdf0).
  assert (∃ evs1, extends st1 st' evs1
            ∧ (length (requests evs0) + length (requests evs1)
               ≤ 4 + 4 * length (visits evs1) + (if (depth =? 0)%Z then 11 else 0))%nat)
    as (evs1 & Ht1 & Hlen1).
  { destruct rv as [[results relevant_links]|msg].
    - destruct Hrest as (pages & He & _).
      apply (explore_events _
               (fun evs => (length (requests evs) ≤ 4 * length (visits evs))%nat))
        in He as (evs1 & Ht1 & Hlen1).
      + exists evs1. split; [exact Ht1|]. destruct (depth =? 0); lia.
      + simpl. lia.
      + intros a b Ha Hb. rewrite requests_app, visits_app, !List.length_app. lia.
      + intros u s r0 s' Hu.
        assert (0 ≤ depth + 1) as Hpos' by lia.
        destruct (IH _ _ _ _ _ _ Hpos' Hu) as (evs1 & Ht1 & Hlen1).
        exists evs1. split; [exact Ht1|].
        assert ((depth + 1 =? 0) = false) as Hz by lia. rewrite Hz in Hlen1. lia.
    - apply handle_failure_spec in Hrest. destruct (retries url msg) eqn:Hretry.
      + destruct Hrest as (out & _ & _ & Ht1 & _).
        exists [Fetch RetryFetch (retry_request url)]. split; [exact Ht1|].
        apply andb_true_iff in Hretry as [Hpdf _]. specialize (Hpdf0 Hpdf).
        simpl. lia.
      + destruct Hrest as [_ ->]. exists []. split; [apply extends_refl|].
        simpl. destruct (depth =? 0); lia. }
  exists ((Visit url depth :: evs0) ++ evs1).
  split; [eapply extends_trans; eassumption|].
  rewrite requests_app, visits_app, !List.length_app.
  cbn [requests visits flat_map app]. fold (requests evs0). fold (visits evs0).
  rewrite Hv0. simpl length. lia.
Qed.

(** X10.  A call at depth 0 or deeper makes at most four requests for
    every URL it visits, and eleven more when it is the call at depth 0: a
    node costs its main request and up to three spec fetches or one second
    attempt, and the root may probe the fourteen common paths instead of
    fetching specs. *)
Theorem request_budget fuel url depth max_depth st r st' evs :
  0 ≤ depth →
  extract_site_content fuel url depth max_depth st = Some (r, st') →
  trace st' = trace st ++ evs →
  (length (requests evs)
   ≤ 4 * length (visits evs) + (if (depth =? 0)%Z then 11 else 0))%nat.
Proof.
  intros Hpos Hrun Ht.
  destruct (extract_site_content_requests _ _ _ _ _ _ _ Hpos Hrun) as (evs' & Ht' & H).
  rewrite <- (extends_inj _ _ _ _ Ht' Ht). exact H.
Qed.

(** *** Second attempts *)

Lemma extract_site_content_retries fuel :
  ∀ url depth max_depth st r st',
    extract_site_content fuel url depth max_depth st = Some (r, st') →
    ∃ evs, extends st st' evs
           ∧ sublist (Firecrawl.url <$> fetches RetryFetch evs) (visits evs)
           ∧ Forall (fun q => is_pdf (Firecrawl.url q) = true
                              ∧ q = retry_request (Firecrawl.url q))
               (fetches RetryFetch evs).
Proof.
  induction fuel as [|fuel IH]; intros url depth max_depth st r st' Hrun; [discriminate|].
  apply extract_site_content_node in Hrun
    as [(_ & _ & ->) | (Hdepth & _ & rv & st1 & Hv & Hrest)].
  { exists []. split; [apply extends_refl|]. split; constructor. }
  destruct (visit_page_requests _ _ _ _ _ _ Hv)
    as (evs0 & Ht0%extends_mark_visited & Hv0 & Hr0 & _).
  assert (∃ evs1, extends st1 st' evs1
            ∧ sublist (Firecrawl.url <$> fetches RetryFetch evs1) (url :: visits evs1)
            ∧ Forall (fun q => is_pdf (Firecrawl.url q) = true
                               ∧ q = retry_request (Firecrawl.url q))
                (fetches RetryFetch evs1))
    as (evs1 & Ht1 & Hs1 & Hf1).
  { destruct rv as [[results relevant_links]|msg].
    - destruct Hrest as (pages & He & _).
      apply (explore_events _
               (fun evs =>
                  sublist (Firecrawl.url <$> fetches RetryFetch evs) (visits evs)
                  ∧ Forall (fun q => is_pdf (Firecrawl.url q) = true
                                     ∧ q = retry_request (Firecrawl.url q))
                      (fetches RetryFetch evs)))
        in He as (evs1 & Ht1 & Hs1 & Hf1).
      + exists evs1. split; [exact Ht1|]. split; [apply sublist_cons, Hs1 | exact Hf1].
      + split; constructor.
      + intros a b [Ha1 Ha2] [Hb1 Hb2]. rewrite fetches_app, fmap_app, visits_app.
        split; [apply sublist_app; assumption | apply Forall_app; auto].
      + intros u s r0 s' Hu. exact (IH _ _ _ _ _ _ Hu).
    - apply handle_failure_spec in Hrest. destruct (retries url msg) eqn:Hretry.
      + destruct Hrest as (out & _ & _ & Ht1 & _).
        exists [Fetch RetryFetch (retry_request url)]. split; [exact Ht1|].
        apply andb_true_iff in Hretry as [Hpdf _].
        split; [apply sublist_skip, sublist_nil_l|].
        repeat constructor. exact Hpdf.
      + destruct Hrest as [_ ->]. exists []. split; [apply extends_refl|].
        split; [apply sublist_nil_l | constructor]. }
  exists ((Visit url depth :: evs0) ++ evs1).
  split; [eapply extends_trans; eassumption|].
  rewrite fetches_app, visits_app.
  cbn [fetches visits flat_map app]. fold (fetches RetryFetch evs0). fold (visits evs0).
  rewrite Hv0, Hr0. auto.
Qed.

(** X11.  Over a whole call, second attempts are made for PDFs only, with
    the reduced request, and for crawl targets of the call in the order of
    their visits: no URL gets more than one. *)
Theorem retries_only_for_pdfs fuel url depth max_depth st r st' evs :
  extract_site_content fuel url depth max_depth st = Some (r, st') →
  trace st' = trace st ++ evs →
  Forall (fun q => is_pdf (Firecrawl.url q) = true
                   ∧ q = retry_request (Firecrawl.url q))
    (fetches RetryFetch evs)
  ∧ sublist (Firecrawl.url <$> fetches RetryFetch evs) (visits evs)
  ∧ NoDup (Firecrawl.url <$> fetches RetryFetch evs).
Proof.
  intros Hrun Ht.
  destruct (extract_site_content_retries _ _ _ _ _ _ _ Hrun) as (evs' & Ht' & Hs & Hf).
  rewrite (extends_inj _ _ _ _ Ht' Ht) in Hs, Hf.
  split; [exact Hf|]. split; [exact Hs|].
  destruct (extract_site_content_inv _ _ _ _ _ _ _ Hrun)
    as (evs'' & (Ht'' & _ & Hnd & _) & _).
  rewrite (extends_inj _ _ _ _ Ht'' Ht) in Hnd.
  eapply sublist_NoDup; eassumption.
Qed.

(** *** The candidates of a node *)

Lemma recorded_sublist urls outs : sublist (spec_url <$> recorded urls outs) urls.
Proof.
  unfold recorded. revert outs. induction urls as [|u urls IH]; intros outs.
  - apply sublist_nil_l.
  - destruct outs as [|out outs]; [apply sublist_nil_l|]. simpl.
    destruct (spec_of u out) as [s|] eqn:Hs.
    + apply spec_of_content in Hs as [_ Hu]. rewrite fmap_cons, Hu.
      apply sublist_skip, IH.
    + apply sublist_cons, IH.
Qed.

Lemma try_common_openapi_endpoints_spec base_url st specs st' :
  try_common_openapi_endpoints base_url st = (specs, st') →
  sublist (spec_url <$> specs) (map (fun path => base_url +:+ path) common_paths)
  ∧ (length specs ≤ 14)%nat.
Proof.
  unfold try_common_openapi_endpoints.
  intros (outs & _ & -> & _)%probe_paths_spec.
  pose proof (recorded_sublist (map (fun path => base_url +:+ path) common_paths) outs)
    as Hsub.
  split; [exact Hsub|].
  apply sublist_length in Hsub. rewrite length_fmap, length_map in Hsub. exact Hsub.
Qed.

(** X12.  The candidates that [try_common_openapi_endpoints] returns are
    listed in the order of the common paths, each under the base URL
    followed by its path and with content; they are fourteen at most, and
    the probed URLs are not marked as visited. *)
Theorem try_common_openapi_endpoints_in_order base_url st specs st' :
  try_common_openapi_endpoints base_url st = (specs, st') →
  sublist (spec_url <$> specs) (map (fun path => base_url +:+ path) common_paths)
  ∧ Forall (fun s => has_content s = true) specs
  ∧ (length specs ≤ 14)%nat
  ∧ visited_urls st' = visited_urls st.
Proof.
  intros Hp. destruct (try_common_openapi_endpoints_spec _ _ _ _ Hp) as (Hsub & Hlen).
  unfold try_common_openapi_endpoints in Hp.
  apply probe_paths_spec in Hp as (outs & _ & -> & Hv & _).
  split; [exact Hsub|]. split; [apply recorded_content|]. split; [exact Hlen | exact Hv].
Qed.

Lemma discover_specs_length openapi_urls base_url depth st specs st' :
  discover_specs openapi_urls base_url depth st = (specs, st') →
  ∀ l, specs = Some l → (length l ≤ (if (depth =? 0)%Z then 14 else 3))%nat.
Proof.
  unfold discover_specs.
  destruct (fetch_specs (take 3 openapi_urls) st) as [found st1] eqn:Hf.
  destruct (fetch_specs_spec _ _ _ _ Hf) as (outs & _ & -> & _).
  pose proof (recorded_sublist (take 3 openapi_urls) outs) as Hfound.
  apply sublist_length in Hfound. rewrite length_fmap, length_take in Hfound.
  destruct (bool_decide (openapi_urls = [])) eqn:Hnone; cbn [andb].
  - apply bool_decide_eq_true in Hnone. subst openapi_urls. clear Hfound.
    assert (recorded (take 3 []) outs = []) as -> by reflexivity.
    destruct (depth =? 0).
    + destruct (try_common_openapi_endpoints base_url st1) as [common st2] eqn:Hc.
      apply try_common_openapi_endpoints_spec in Hc as [_ Hc].
      destruct common as [|c cs]; intros [= <- <-] l [= <-]. exact Hc.
    + intros [= <- <-] l [=].
  - intros [= <- <-] l Hl.
    destruct (recorded (take 3 openapi_urls) outs) as [|c cs]; [discriminate|].
    injection Hl as <-. destruct (depth =? 0); lia.
Qed.

Lemma visit_page_specs_length url depth max_depth st results relevant_links st' :
  visit_page url depth max_depth st = (Ok (results, relevant_links), st') →
  ∀ l, page_openapi_specs results = Some l →
       (length l ≤ (if (depth =? 0)%Z then 14 else 3))%nat.
Proof.
  unfold visit_page. destruct (negb (truthy api_key)); [discriminate|].
  destruct (scrape MainFetch (main_request url) st) as [out st1].
  destruct out as [[data|]|msg]; try discriminate.
  destruct (base_url_of url) as [base_url|msg]; [|discriminate].
  destruct (is_pdf url).
  - intros [= <- <- <-] l [=].
  - destruct (find_openapi_urls _ base_url) as [openapi_urls|msg]; [|discriminate].
    destruct (discover_specs openapi_urls base_url depth st1) as [specs st2] eqn:Hd.
    destruct (api_related_links_of _ base_url) as [api_related_links|msg]; [|discriminate].
    intros [= <- <- <-]. exact (discover_specs_length _ _ _ _ _ _ Hd).
Qed.

(** X13.  A page holds at most three spec candidates, or at most fourteen
    when it is the page of a call at depth 0, where the common paths may
    have been probed. *)
Theorem openapi_specs_bounded fuel url depth max_depth st p st' l :
  extract_site_content fuel url depth max_depth st = Some (Some p, st') →
  page_openapi_specs p = Some l →
  (length l ≤ (if (depth =? 0)%Z then 14 else 3))%nat.
Proof.
  intros Hrun. destruct fuel as [|fuel]; [discriminate|].
  apply extract_site_content_node in Hrun
    as [(_ & [=] & _) | (_ & _ & rv & st1 & Hv & Hrest)].
  destruct rv as [[results relevant_links]|msg].
  - destruct Hrest as (pages & _ & [= ->]).
    cbn [with_child_pages page_openapi_specs].
    exact (visit_page_specs_length _ _ _ _ _ _ _ Hv l).
  - apply handle_failure_page in Hrest as (_ & d & ->). discriminate.
Qed.

(** *** [main] *)

Lemma height_one p : (height p ≤ 1)%nat → page_child_pages p = [].
Proof.
  rewrite height_unfold. destruct (page_child_pages p) as [|c cs]; [reflexivity|].
  simpl. rewrite (height_unfold c). lia.
Qed.

(** X14.  Without [--recursive] the script visits one URL at most, the
    one it was given, whatever [--max-depth] says: [main] returns, and the
    page it extracts has no child pages. *)
Theorem main_without_recursion args w :
  args_recursive args = false →
  ∃ r st',
    main args w = Some (r, st')
    ∧ sublist (visits (trace st')) [args_url args]
    ∧ ∀ p, r = Some p → page_url p = args_url args ∧ page_child_pages p = [].
Proof.
  intros Hrec. unfold main. destruct (test_firecrawl_connection w) as [connected w1].
  destruct connected.
  2:{ eexists _, _. split; [reflexivity|]. split; [apply sublist_nil_l | discriminate]. }
  rewrite Hrec. unfold crawl.
  destruct (extract_site_content_total (fuel_for 0 0) (args_url args) 0 0
              (mkState w1 ∅ [])) as [[r st'] Hrun].
  { unfold fuel_for. simpl. lia. }
  exists r, st'. split; [exact Hrun|]. split.
  - destruct (extract_site_content_inv _ _ _ _ _ _ _ Hrun) as (evs & (Ht & _) & Hlen & _).
    assert (Hle : 0 ≤ 0) by lia.
    destruct (extract_site_content_enter _ _ _ _ _ _ _ Hrun Hle
                (not_elem_of_empty (args_url args))) as (evs' & Ht' & _).
    rewrite (extends_inj _ _ _ _ Ht Ht') in Hlen.
    unfold extends in Ht'. simpl in Ht'. rewrite Ht'.
    change (fan_out_bound (fuel_for 0 0)) with 1%nat in Hlen.
    cbn [visits flat_map app length] in *. fold (visits evs') in *.
    destruct (visits evs'); [reflexivity | simpl in Hlen; lia].
  - intros p ->. destruct (extract_site_content_height _ _ _ _ _ _ _ Hrun) as (Hurl & Hh).
    split; [exact Hurl | apply height_one; exact Hh].
Qed.

(** X15.  [main] always comes to an end.  Without an API key it contacts
    nothing and extracts nothing; in every run each crawl target is visited
    once, at a depth between 0 and the maximum depth, which is 0 unless
    [--recursive] is given. *)
Theorem main_returns args w :
  ∃ r st',
    main args w = Some (r, st')
    ∧ (truthy api_key = false → r = None ∧ world st' = w ∧ trace st' = [])
    ∧ NoDup (visits (trace st'))
    ∧ Forall (fun d => 0 ≤ d ≤ (if args_recursive args then args_max_depth args else 0))
        (visit_depths (trace st')).
Proof.
  unfold main, test_firecrawl_connection.
  destruct (truthy api_key); cbn [negb].
  2:{ eexists _, _. split; [reflexivity|]. repeat split; constructor. }
  destruct (scrape_url test_request w) as [out w1].
  set (max_depth := if args_recursive args then args_max_depth args else 0).
  assert (Hcrawl : ∃ r st',
            crawl (args_url args) max_depth w1 = Some (r, st')
            ∧ NoDup (visits (trace st'))
            ∧ Forall (fun d => 0 ≤ d ≤ max_depth) (visit_depths (trace st'))).
  { unfold crawl.
    destruct (extract_site_content_total (fuel_for 0 max_depth) (args_url args) 0 max_depth
                (mkState w1 ∅ [])) as [[r st'] Hrun].
    { unfold fuel_for. lia. }
    exists r, st'. split; [exact Hrun|].
    destruct (extract_site_content_inv _ _ _ _ _ _ _ Hrun) as (evs & (Ht & _ & Hnd & _) & _).
    destruct (extract_site_content_depths _ _ _ _ _ _ _ Hrun) as (evs' & Ht' & Hd).
    unfold extends in Ht, Ht'. simpl in Ht, Ht'. rewrite Ht at 1. rewrite Ht'. auto. }
  destruct out as [[data|]|msg].
  - destruct Hcrawl as (r & st' & Hrun & Hnd & Hd).
    exists r, st'. split; [exact Hrun|]. split; [discriminate | auto].
  - eexists _, _. split; [reflexivity|]. split; [discriminate|]. split; constructor.
  - eexists _, _. split; [reflexivity|]. split; [discriminate|]. split; constructor.
Qed.

(** *** The links of a page *)

Lemma relevant_link_elem base_url link zs y :
  relevant_link base_url link = Ok zs → In y zs →
  is_api_related_link y base_url = Ok true
  ∧ has_char "?" y = false ∧ has_char "#" y = false.
Proof.
  assert (Hend : ∀ source related,
            clean_url source = Ok y → is_api_related_link y base_url = Ok related →
            In y (if related : bool then [y] else []) →
            is_api_related_link y base_url = Ok true
            ∧ has_char "?" y = false ∧ has_char "#" y = false).
  { intros source related Hclean Hrel Hin. destruct related; [|destruct Hin].
    split; [exact Hrel|]. apply clean_url_path_chars, path_char_iff in Hclean. tauto. }
  assert (Hone : ∀ source related full_url,
            clean_url source = Ok full_url →
            is_api_related_link full_url base_url = Ok related →
            In y (if related : bool then [full_url] else []) →
            is_api_related_link y base_url = Ok true
            ∧ has_char "?" y = false ∧ has_char "#" y = false).
  { intros source related full_url Hclean Hrel Hin.
    assert (full_url = y) as ->.
    { destruct related; [destruct Hin as [H | []]; exact H | destruct Hin]. }
    eapply Hend; eassumption. }
  unfold relevant_link. destruct (startswith "/" link).
  - intros H Hin. apply bind_Ok_inv in H as (joined & _ & H).
    apply bind_Ok_inv in H as (full_url & Hclean & H).
    apply bind_Ok_inv in H as (related & Hrel & [= <-]). eapply Hone; eassumption.
  - destruct (_ || _); [|intros [= <-] []].
    intros H Hin. apply bind_Ok_inv in H as (full_url & Hclean & H).
    apply bind_Ok_inv in H as (related & Hrel & [= <-]). eapply Hone; eassumption.
Qed.

Lemma visit_page_links url depth max_depth st results relevant_links st' :
  visit_page url depth max_depth st = (Ok (results, relevant_links), st') →
  links_ok results.
Proof.
  unfold visit_page. destruct (negb (truthy api_key)); [discriminate|].
  destruct (scrape MainFetch (main_request url) st) as [out st1].
  destruct out as [[data|]|msg]; try discriminate.
  destruct (base_url_of url) as [base_url|msg] eqn:Hbase; [|discriminate].
  destruct (is_pdf url).
  { intros [= <- <- <-]. left. reflexivity. }
  destruct (find_openapi_urls _ base_url) as [openapi_urls|msg]; [|discriminate].
  destruct (discover_specs openapi_urls base_url depth st1) as [specs st2].
  destruct (api_related_links_of _ base_url) as [api_related_links|msg] eqn:Hl;
    [|discriminate].
  intros [= <- <- <-]. unfold links_ok. cbn [page_links page_url].
  unfold api_related_links_of in Hl.
  destruct (Firecrawl.links data) as [[|link links]|]; try (left; congruence).
  apply bind_Ok_inv in Hl as (found & Hfound & [= <-]).
  right. exists base_url, found. split; [exact Hbase|]. split; [reflexivity|].
  apply Forall_forall. intros y Hy%list_elem_of_In.
  apply (collect_elem _ _ _ Hfound) in Hy as (x & zs & _ & Hx & Hy).
  exact (relevant_link_elem _ _ _ _ Hx Hy).
Qed.

Lemma extract_site_content_links fuel :
  ∀ url depth max_depth st p st',
    extract_site_content fuel url depth max_depth st = Some (Some p, st') →
    page_url p = url ∧ Forall links_ok (pages_of p).
Proof.
  induction fuel as [|fuel IH]; intros url depth max_depth st p st' Hrun; [discriminate|].
  apply extract_site_content_node in Hrun
    as [(_ & [=] & _) | (_ & _ & rv & st1 & Hv & Hrest)].
  destruct rv as [[results relevant_links]|msg].
  - destruct Hrest as (pages & He & [= ->]).
    destruct (visit_page_result _ _ _ _ _ _ _ Hv) as (Hurl & _).
    pose proof (visit_page_links _ _ _ _ _ _ _ Hv) as Hl.
    destruct (explore_pages _ (fun c => Forall links_ok (pages_of c))
                (fun u s c s' Hu => IH _ _ _ _ _ _ Hu) _ _ _ _ He) as (_ & Hall).
    split; [exact Hurl|]. rewrite pages_of_unfold.
    cbn [with_child_pages page_child_pages]. constructor; [exact Hl|].
    apply Forall_forall. intros q Hq.
    apply list_elem_of_In, in_flat_map in Hq as (c & Hc & Hq).
    apply list_elem_of_In in Hc, Hq.
    rewrite Forall_forall in Hall. specialize (Hall c Hc).
    rewrite Forall_forall in Hall. exact (Hall q Hq).
  - apply handle_failure_page in Hrest as (_ & d & ->).
    split; [reflexivity|]. repeat constructor.
Qed.

(** X16.  On every page of a result tree the recorded links are
    [list(set(found))] for links that each passed [is_api_related_link]
    against the base URL of the page and hold neither a query nor a
    fragment, unless the page records no link at all. *)
Theorem page_links_relevant fuel url depth max_depth st p st' :
  extract_site_content fuel url depth max_depth st = Some (Some p, st') →
  Forall links_ok (pages_of p).
Proof. intros Hrun. exact (proj2 (extract_site_content_links _ _ _ _ _ _ _ Hrun)). Qed.

(** *** The matches of the scan *)




(** ** [generate_output_filename] *)

Lemma plain_component_inv c :
  plain_component c = true →
  c ≠ "" ∧ startswith "/" c = false ∧ endswith "/" c = false.
Proof.
  unfold plain_component.
  intros [[H1 H2]%andb_true_iff H3]%andb_true_iff.
  apply negb_true_iff in H1, H2, H3. split; [|auto].
  intros ->. discriminate H1.
Qed.

Lemma join_step_plain path b :
  path ≠ "" → endswith "/" path = false → plain_component b = true →
  Posixpath.join_step path b = path +:+ "/" +:+ b
  ∧ path +:+ "/" +:+ b ≠ ""
  ∧ endswith "/" (path +:+ "/" +:+ b) = false.
Proof.
  intros Hne Hend (Hb & Hstart & Hbend)%plain_component_inv.
  split; [|split].
  - unfold Posixpath.join_step. rewrite Hstart, Hend.
    destruct (String.eqb_spec path ""); [contradiction | reflexivity].
  - intros H. apply (f_equal String.length) in H. rewrite !slength_app in H.
    simpl in H. lia.
  - rewrite !endswith_app_short; [exact Hbend | |].
    + destruct b; [contradiction | simpl; lia].
    + rewrite slength_app. simpl. lia.
Qed.

Lemma join_step_file path (name : string) :
  path ≠ "" → endswith "/" path = false →
  Posixpath.join_step path ("raw_content_" +:+ name) = path +:+ "/" +:+ "raw_content_" +:+ name.
Proof.
  intros Hne Hend. unfold Posixpath.join_step. rewrite Hend.
  destruct (String.eqb_spec path ""); [contradiction | reflexivity].
Qed.

(** X18.  For a country, a service type and a bank that are not empty
    and have no slash at either end, the directory created is
    [outputs/<country>/<service_type>/<bank>] and the file name returned is
    [raw_content_<timestamp>.<format_type>] in that directory. *)
Theorem generate_output_filename_layout
    country service_type bank format_type timestamp :
  plain_component country = true →
  plain_component service_type = true →
  plain_component bank = true →
  let output_dir := (("outputs" +:+ "/" +:+ country) +:+ "/" +:+ service_type)
                    +:+ "/" +:+ bank in
  generate_output_filename country service_type bank format_type timestamp
  = (output_dir,
     output_dir +:+ "/" +:+ "raw_content_" +:+ timestamp +:+ "." +:+ format_type).
Proof.
  intros Hc Hs Hb output_dir. unfold generate_output_filename.
  cbn [Posixpath.join fold_left].
  destruct (join_step_plain "outputs" country) as (-> & Hne1 & Hend1);
    [discriminate | reflexivity | exact Hc |].
  destruct (join_step_plain _ service_type Hne1 Hend1 Hs) as (-> & Hne2 & Hend2).
  destruct (join_step_plain _ bank Hne2 Hend2 Hb) as (-> & Hne3 & Hend3).
  fold output_dir in Hne3, Hend3 |- *.
  rewrite (join_step_file _ _ Hne3 Hend3). reflexivity.
Qed.

(** X19.  A bank that begins with a slash takes the place of the whole
    path: whatever the country and the service type, the directory created
    is the bank itself, outside [outputs], and the file is put there. *)
Theorem generate_output_filename_absolute_bank
    country service_type bank format_type timestamp :
  startswith "/" bank = true → endswith "/" bank = false →
  generate_output_filename country service_type bank format_type timestamp
  = (bank, bank +:+ "/" +:+ "raw_content_" +:+ timestamp +:+ "." +:+ format_type).
Proof.
  intros Hstart Hend. unfold generate_output_filename.
  cbn [Posixpath.join fold_left].
  assert (Hbank : ∀ path, Posixpath.join_step path bank = bank).
  { intros path. unfold Posixpath.join_step. rewrite Hstart. reflexivity. }
  rewrite Hbank. rewrite join_step_file; [reflexivity | | exact Hend].
  intros ->. discriminate Hstart.
Qed.

End extract_api.
(** * Closed examples on the site of [Example] *)

Module Closed.
Import Py Regex Example.

Abbreviation chk := reject_bracketed_host.
Abbreviation run :=
  (extract_site_content reject_bracketed_host unit scrape_url api_key list_of_set).
Abbreviation fresh := (mkState unit tt ∅ []).

(** A crawl over a cycle: [url_A] links to [url_B] and [url_B] back to
    [url_A]; the crawl returns, and each of the two is visited and fetched
    once. *)
Example crawl_cycle :
  ∃ r st',
    crawl chk unit scrape_url api_key list_of_set url_A 5 tt = Some (r, st')
    ∧ visits (trace unit st') = [url_A; url_B]
    ∧ Firecrawl.url <$> fetches MainFetch (trace unit st') = [url_A; url_B].
Proof. eexists _, _. vm_compute. repeat split. Qed.

(** A witness for C2: the root page holds five relevant links; with one
    level of recursion the crawl visits the root and three of them. *)
Lemma crawl_fan_out_cap_witness :
  ∃ r st' evs,
    run (fuel_for 0 1) url_root 0 1 fresh = Some (r, st')
    ∧ trace unit st' = trace unit fresh ++ evs
    ∧ length (visits evs) = 4%nat
    ∧ ((∀ p, r = Some p →
          Forall (fun q => fan_out_ok q ∧ (length (page_child_pages q) ≤ 3)%nat)
            (pages_of p))
       ∧ (length (fetches MainFetch evs) ≤ length (visits evs))%nat
       ∧ (length (visits evs) ≤ fan_out_bound (fuel_for 0 1))%nat
       ∧ (1 = 0 + 1 →
          (length (visits evs) ≤ 4)%nat ∧ (length (fetches MainFetch evs) ≤ 4)%nat)).
Proof.
  eassert (E : run (fuel_for 0 1) url_root 0 1 fresh = Some (_, _))
    by (vm_compute; reflexivity).
  eexists _, _, _. split; [exact E|]. split; [reflexivity|]. split; [reflexivity|].
  exact (crawl_fan_out_cap chk unit scrape_url api_key list_of_set
           url_root 0 1 fresh _ _ _ E eq_refl).
Defined.

(** A witness for C3: the main fetch of [url_slow_pdf] times out, the
    second attempt answers, and the node returns its page after exactly one
    retry. *)
Lemma main_fetch_failure_witness :
  ∃ p st',
    run 1 url_slow_pdf 0 1 fresh = Some (Some p, st')
    ∧ page_url p = url_slow_pdf
    ∧ fetches RetryFetch (trace unit st') = [retry_request url_slow_pdf].
Proof.
  destruct (main_fetch_failure chk unit scrape_url api_key list_of_set
              0 url_slow_pdf 0 1 fresh "Request Timeout" tt) as [_ H].
  - reflexivity.
  - lia.
  - apply not_elem_of_empty.
  - reflexivity.
  - rewrite H. vm_compute. eexists _, _. repeat split.
Defined.



(** A witness for C5, on the two examples of the spec: [blog] is a
    negative keyword and wins over [api] and [guide]; [docs], [api] and
    [reference] are positive keywords. *)
Lemma is_api_related_link_keywords_witness :
  is_api_related_link chk "https://x.com/blog/api-guide" "https://x.com" = Ok false
  ∧ is_api_related_link chk "https://x.com/docs/api/reference" "https://x.com" = Ok true.
Proof.
  split.
  - apply (is_api_related_link_keywords chk _ _
             (Urllib.mkParse "https" "x.com" "/blog/api-guide" "" "" "")
             (Urllib.mkParse "https" "x.com" "" "" "" ""));
      [reflexivity | reflexivity | left; reflexivity |].
    exists "blog". split; [|reflexivity]. simpl. tauto.
  - destruct (is_api_related_link_keywords chk
                "https://x.com/docs/api/reference" "https://x.com"
                (Urllib.mkParse "https" "x.com" "/docs/api/reference" "" "" "")
                (Urllib.mkParse "https" "x.com" "" "" "" "")
                eq_refl eq_refl (or_introl eq_refl)) as [_ H].
    destruct H as (answer & -> & Hanswer).
    + intros keyword Hk. simpl in Hk.
      repeat (destruct Hk as [<- | Hk]; [reflexivity|]). destruct Hk.
    + f_equal. apply Hanswer. exists "api". split; [|reflexivity]. simpl. tauto.
Defined.


(** The other conditions of C6 as amended are needed as well. *)
Example clean_url_without_scheme :
  clean_url chk "x.com/a" = Ok "://x.com/a"
  ∧ clean_url chk "://x.com/a" = Ok "://://x.com/a".
Proof. split; reflexivity. Qed.

Example clean_url_semicolon :
  clean_url chk "http://x.com/a;b/" = Ok "http://x.com/a;b"
  ∧ clean_url chk "http://x.com/a;b" = Ok "http://x.com/a".
Proof. split; reflexivity. Qed.

Example clean_url_nested_link :
  clean_url chk "https://x.com/[a]([b](c))" = Ok "https://x.com/[b](c)"
  ∧ clean_url chk "https://x.com/[b](c)" = Ok "https://x.com/c".
Proof. split; reflexivity. Qed.

Example clean_url_closing_bracket :
  clean_url chk "http:a]b" = Ok "http://a]b"
  ∧ clean_url chk "http://a]b" = Raise "Invalid IPv6 URL".
Proof. split; reflexivity. Qed.


(** A witness for C7, on both paths: [url_pdf] answers its main request,
    [url_slow_pdf] only its second attempt. *)
Lemma pdf_pages_are_leaves_witness :
  (∃ p st',
     run 1 url_pdf 0 1 fresh = Some (Some p, st')
     ∧ page_links p = [] ∧ page_openapi_specs p = None ∧ page_child_pages p = [])
  ∧ (∃ p st',
       run 1 url_slow_pdf 0 1 fresh = Some (Some p, st')
       ∧ page_links p = [] ∧ page_openapi_specs p = None ∧ page_child_pages p = []).
Proof.
  split.
  - eassert (E : run 1 url_pdf 0 1 fresh = Some (Some _, _))
      by (vm_compute; reflexivity).
    eexists _, _. split; [exact E|].
    destruct (pdf_pages_are_leaves chk unit scrape_url api_key list_of_set
                1 url_pdf 0 1 fresh _ _ eq_refl E) as (H1 & H2 & H3 & _). auto.
  - eassert (E : run 1 url_slow_pdf 0 1 fresh = Some (Some _, _))
      by (vm_compute; reflexivity).
    eexists _, _. split; [exact E|].
    destruct (pdf_pages_are_leaves chk unit scrape_url api_key list_of_set
                1 url_slow_pdf 0 1 fresh _ _ eq_refl E) as (H1 & H2 & H3 & _). auto.
Defined.

(** A witness for C8: of the fourteen probes at [https://x.com], those of
    [/openapi.json] and [/v2/openapi.json] are answered with content and are
    the ones recorded; the twelve that raise are passed over. *)
Lemma probing_common_paths_witness :
  ∃ specs st',
    try_common_openapi_endpoints unit scrape_url "https://x.com" fresh = (specs, st')
    ∧ spec_url <$> specs = ["https://x.com/openapi.json"; "https://x.com/v2/openapi.json"]
    ∧ length (fetches ProbeFetch (trace unit st')) = 14%nat
    ∧ ∃ outs, length outs = 14%nat
              ∧ specs = recorded (map (fun path => "https://x.com" +:+ path) common_paths) outs.
Proof.
  eassert (E : try_common_openapi_endpoints unit scrape_url "https://x.com" fresh = (_, _))
    by (vm_compute; reflexivity).
  eexists _, _. split; [exact E|]. split; [reflexivity|]. split; [reflexivity|].
  destruct (probing_common_paths chk unit scrape_url api_key list_of_set)
    as (_ & H & _).
  destruct (H _ _ _ _ E) as (outs & _ & Hlen & Hspecs & _).
  exists outs. split; [exact Hlen | exact Hspecs].
Defined.


(** A witness for C10: the root page is returned under its URL, with the
    specs fetched from its embedded link. *)
Lemma page_result_shape_witness :
  ∃ p st',
    run 1 url_root 0 0 fresh = Some (Some p, st')
    ∧ page_url p = url_root
    ∧ ∃ l, page_openapi_specs p = Some l ∧ l ≠ []
           ∧ Forall (fun s => has_content s = true) l.
Proof.
  eassert (E : run 1 url_root 0 0 fresh = Some (Some _, _))
    by (vm_compute; reflexivity).
  eexists _, _. split; [exact E|].
  destruct (page_result_shape chk unit scrape_url api_key list_of_set
              _ _ _ _ _ _ _ E) as (Hurl & Hspecs).
  split; [exact Hurl|]. eexists. split; [reflexivity|]. apply Hspecs. reflexivity.
Defined.

End Closed.

(** * Closed examples for the further properties *)

Module Runs.
Import Py Regex Example.

Abbreviation chk := reject_bracketed_host.
Abbreviation run :=
  (extract_site_content reject_bracketed_host unit scrape_url api_key list_of_set).
Abbreviation fresh := (mkState unit tt ∅ []).

(** A witness for X1: the query, the fragment and the trailing slash go. *)
Lemma clean_url_drops_query_and_fragment_witness :
  clean_url chk "https://x.com/docs/?q=1#top" = Ok "https://x.com/docs"
  ∧ has_char "?" "https://x.com/docs" = false
  ∧ has_char "#" "https://x.com/docs" = false.
Proof.
  split; [reflexivity|].
  destruct (clean_url_drops_query_and_fragment chk
              "https://x.com/docs/?q=1#top" "https://x.com/docs" eq_refl)
    as (H1 & H2 & _).
  split; [exact H1 | exact H2].
Defined.


(** A witness for X3. *)
Lemma clean_url_markdown_link_witness :
  clean_url chk "[API](https://x.com/docs/)" = clean_url chk "https://x.com/docs/".
Proof.
  apply (clean_url_markdown_link chk "API" "https://x.com/docs/");
    (reflexivity || discriminate).
Defined.


(** A witness for X5: without a key not even the PDF whose first fetch
    would time out is requested a second time. *)
Lemma extract_site_content_without_key_witness :
  extract_site_content chk unit scrape_url None list_of_set 1 url_slow_pdf 0 1 fresh
  = Some (None, mkState unit tt ({[url_slow_pdf]} ∪ ∅) [Visit url_slow_pdf 0]).
Proof.
  apply (extract_site_content_without_key chk unit scrape_url None list_of_set
           0 url_slow_pdf 0 1 fresh);
    [reflexivity | lia | apply not_elem_of_empty].
Defined.

(** A witness for X6, on the cycle of [url_A] and [url_B]. *)
Lemma visited_urls_grow_witness :
  ∃ r st',
    run (fuel_for 0 5) url_A 0 5 fresh = Some (r, st')
    ∧ url_A ∈ visited_urls unit st'.
Proof.
  eassert (E : run (fuel_for 0 5) url_A 0 5 fresh = Some (_, _))
    by (vm_compute; reflexivity).
  eexists _, _. split; [exact E|].
  destruct (visited_urls_grow chk unit scrape_url api_key list_of_set
              _ _ _ _ _ _ _ E) as (_ & H & _).
  apply H. lia.
Defined.

(** A witness for X7: the root at depth 0 and three children at depth 1. *)
Lemma visits_within_max_depth_witness :
  ∃ r st' evs,
    run (fuel_for 0 1) url_root 0 1 fresh = Some (r, st')
    ∧ trace unit st' = trace unit fresh ++ evs
    ∧ visit_depths evs = [0; 1; 1; 1]
    ∧ Forall (fun d => 0 ≤ d ≤ 1) (visit_depths evs).
Proof.
  eassert (E : run (fuel_for 0 1) url_root 0 1 fresh = Some (_, _))
    by (vm_compute; reflexivity).
  eexists _, _, _. split; [exact E|]. split; [reflexivity|]. split; [reflexivity|].
  exact (visits_within_max_depth chk unit scrape_url api_key list_of_set
           _ _ _ _ _ _ _ _ E eq_refl).
Defined.

(** A witness for X8: a tree of two levels under a maximum depth of 1. *)
Lemma result_tree_height_witness :
  ∃ p st',
    run (fuel_for 0 1) url_root 0 1 fresh = Some (Some p, st')
    ∧ height p = 2%nat
    ∧ Z.of_nat (height p) ≤ 1 - 0 + 1.
Proof.
  eassert (E : run (fuel_for 0 1) url_root 0 1 fresh = Some (Some _, _))
    by (vm_compute; reflexivity).
  eexists _, _. split; [exact E|]. split; [reflexivity|].
  exact (result_tree_height chk unit scrape_url api_key list_of_set
           _ _ _ _ _ _ _ E).
Defined.

(** A witness for X9: of the four URLs visited, the root and the one
    child that answers are pages of the tree. *)
Lemma result_tree_urls_visited_witness :
  ∃ p st' evs,
    run (fuel_for 0 1) url_root 0 1 fresh = Some (Some p, st')
    ∧ trace unit st' = trace unit fresh ++ evs
    ∧ page_url <$> pages_of p = [url_root; "https://x.com/docs/1"]
    ∧ sublist (page_url <$> pages_of p) (visits evs)
    ∧ NoDup (page_url <$> pages_of p).
Proof.
  eassert (E : run (fuel_for 0 1) url_root 0 1 fresh = Some (Some _, _))
    by (vm_compute; reflexivity).
  eexists _, _, _. split; [exact E|]. split; [reflexivity|]. split; [reflexivity|].
  exact (result_tree_urls_visited chk unit scrape_url api_key list_of_set
           _ _ _ _ _ _ _ _ E eq_refl).
Defined.

(** A witness for X10: four URLs visited and six requests, the main
    request of each and two fetches of the spec that the root page links
    to, which two patterns of the scan find. *)
Lemma request_budget_witness :
  ∃ r st' evs,
    run (fuel_for 0 1) url_root 0 1 fresh = Some (r, st')
    ∧ trace unit st' = trace unit fresh ++ evs
    ∧ length (visits evs) = 4%nat ∧ length (requests evs) = 6%nat
    ∧ (length (requests evs) ≤ 4 * length (visits evs) + 11)%nat.
Proof.
  eassert (E : run (fuel_for 0 1) url_root 0 1 fresh = Some (_, _))
    by (vm_compute; reflexivity).
  eexists _, _, _. split; [exact E|]. split; [reflexivity|].
  split; [reflexivity|]. split; [reflexivity|].
  apply (request_budget chk unit scrape_url api_key list_of_set
           _ _ _ _ _ _ _ _ (Z.le_refl 0) E eq_refl).
Defined.

(** A witness for X11: the one second attempt of the run goes to the PDF
    that timed out. *)
Lemma retries_only_for_pdfs_witness :
  ∃ r st' evs,
    run 1 url_slow_pdf 0 1 fresh = Some (r, st')
    ∧ trace unit st' = trace unit fresh ++ evs
    ∧ fetches RetryFetch evs = [retry_request url_slow_pdf]
    ∧ Forall (fun q => is_pdf (Firecrawl.url q) = true
                       ∧ q = retry_request (Firecrawl.url q))
        (fetches RetryFetch evs)
    ∧ sublist (Firecrawl.url <$> fetches RetryFetch evs) (visits evs)
    ∧ NoDup (Firecrawl.url <$> fetches RetryFetch evs).
Proof.
  eassert (E : run 1 url_slow_pdf 0 1 fresh = Some (_, _))
    by (vm_compute; reflexivity).
  eexists _, _, _. split; [exact E|]. split; [reflexivity|]. split; [reflexivity|].
  exact (retries_only_for_pdfs chk unit scrape_url api_key list_of_set
           _ _ _ _ _ _ _ _ E eq_refl).
Defined.

(** A witness for X12: the two common paths that answer at
    [https://x.com], in the order of the list. *)
Lemma try_common_openapi_endpoints_in_order_witness :
  ∃ specs st',
    try_common_openapi_endpoints unit scrape_url "https://x.com" fresh = (specs, st')
    ∧ spec_url <$> specs = ["https://x.com/openapi.json"; "https://x.com/v2/openapi.json"]
    ∧ sublist (spec_url <$> specs)
        (map (fun path => "https://x.com" +:+ path) common_paths)
    ∧ visited_urls unit st' = ∅.
Proof.
  eassert (E : try_common_openapi_endpoints unit scrape_url "https://x.com" fresh = (_, _))
    by (vm_compute; reflexivity).
  eexists _, _. split; [exact E|]. split; [reflexivity|].
  destruct (try_common_openapi_endpoints_in_order unit scrape_url _ _ _ _ E)
    as (H1 & _ & _ & H2).
  split; [exact H1 | exact H2].
Defined.

(** A witness for X13: the root page holds the spec that its HTML links
    to, once for each of the two patterns that find it. *)
Lemma openapi_specs_bounded_witness :
  ∃ p st' l,
    run 1 url_root 0 0 fresh = Some (Some p, st')
    ∧ page_openapi_specs p = Some l
    ∧ length l = 2%nat
    ∧ (length l ≤ 14)%nat.
Proof.
  eassert (E : run 1 url_root 0 0 fresh = Some (Some _, _))
    by (vm_compute; reflexivity).
  eexists _, _, _. split; [exact E|]. split; [reflexivity|]. split; [reflexivity|].
  exact (openapi_specs_bounded chk unit scrape_url api_key list_of_set
           _ _ _ _ _ _ _ _ E eq_refl).
Defined.

(** A witness for X14: the root page has five relevant links, and
    without [--recursive] none of them is visited, for all that
    [--max-depth] is 3. *)
Lemma main_without_recursion_witness :
  ∃ r st',
    main chk unit Connected.scrape_url api_key list_of_set
      (mkArgs url_root false 3) tt = Some (r, st')
    ∧ sublist (visits (trace unit st')) [url_root]
    ∧ ∀ p, r = Some p → page_url p = url_root ∧ page_child_pages p = [].
Proof.
  exact (main_without_recursion chk unit Connected.scrape_url api_key list_of_set
           (mkArgs url_root false 3) tt eq_refl).
Defined.

(** The run of that witness, and the same run with [--recursive]. *)
Example main_on_the_root :
  (∃ p st',
     main chk unit Connected.scrape_url api_key list_of_set
       (mkArgs url_root false 3) tt = Some (Some p, st')
     ∧ visits (trace unit st') = [url_root]
     ∧ length (page_links p) = 5%nat ∧ page_child_pages p = [])
  ∧ (∃ p st',
       main chk unit Connected.scrape_url api_key list_of_set
         (mkArgs url_root true 3) tt = Some (Some p, st')
       ∧ length (visits (trace unit st')) = 4%nat
       ∧ length (page_child_pages p) = 1%nat)
  ∧ main chk unit scrape_url api_key list_of_set (mkArgs url_root true 3) tt
    = Some (None, fresh).
Proof.
  split; [|split]; [eexists _, _; vm_compute; repeat split.. | reflexivity].
Qed.

(** A witness for X16: the five links recorded for the root page. *)
Lemma page_links_relevant_witness :
  ∃ p st',
    run 1 url_root 0 0 fresh = Some (Some p, st')
    ∧ length (page_links p) = 5%nat
    ∧ Forall (links_ok chk list_of_set) (pages_of p).
Proof.
  eassert (E : run 1 url_root 0 0 fresh = Some (Some _, _))
    by (vm_compute; reflexivity).
  eexists _, _. split; [exact E|]. split; [reflexivity|].
  exact (page_links_relevant chk unit scrape_url api_key list_of_set
           _ _ _ _ _ _ _ E).
Defined.


(** A witness for X18, on the first example of the help text. *)
Lemma generate_output_filename_layout_witness :
  generate_output_filename "ro" "aisp" "example" "json" "20240131_093000"
  = ("outputs/ro/aisp/example",
     "outputs/ro/aisp/example/raw_content_20240131_093000.json").
Proof.
  apply (generate_output_filename_layout "ro" "aisp" "example" "json" "20240131_093000");
    reflexivity.
Defined.

(** A witness for X19. *)
Lemma generate_output_filename_absolute_bank_witness :
  generate_output_filename "ro" "aisp" "/tmp/bank" "yaml" "20240131_093000"
  = ("/tmp/bank", "/tmp/bank/raw_content_20240131_093000.yaml").
Proof.
  apply (generate_output_filename_absolute_bank
           "ro" "aisp" "/tmp/bank" "yaml" "20240131_093000"); reflexivity.
Defined.

End Runs.
